(** * repo_analyzer.file_summary: a shallow embedding and its properties

    The development follows [src/repo_analyzer/file_summary.py]:
    the pattern matcher, the language table, the heuristic summary chain,
    the directory scanner and the report generator.

    Conventions of the embedding.
    - A Python [str] is a [string] of 8-bit characters; [str.lower] acts on
      the letters A-Z, string comparison is by character code.
    - A [pathlib] path is the tuple of its [parts].
    - A Python function that may raise returns a [result]; [try]/[except]
      is a [match] on it.
    - The file system that [os.walk] reads is a finite tree of [node]s; the
      place the report is written to is a [world]. *)

From Stdlib Require Import Ascii String.
From stdpp Require Import base strings list gmap sorting pretty.

Local Open Scope string_scope.
Local Open Scope list_scope.
Set Warnings "-register-all".

(** ** Python string primitives *)

Module PyStr.

(** [s.startswith(p)] *)
Fixpoint startswith (s p : string) : bool :=
  match p, s with
  | "", _ => true
  | String _ _, "" => false
  | String b p', String a s' => bool_decide (a = b) && startswith s' p'
  end.

(** [s.endswith(p)]: some tail of [s] is [p]. *)
Fixpoint endswith (s p : string) : bool :=
  bool_decide (s = p) ||
  match s with
  | "" => false
  | String _ s' => endswith s' p
  end.

(** [sub in s] *)
Fixpoint contains (s sub : string) : bool :=
  startswith s sub ||
  match s with
  | "" => false
  | String _ s' => contains s' sub
  end.

(** [s[1:]] *)
Definition drop_first (s : string) : string :=
  match s with
  | "" => ""
  | String _ s' => s'
  end.

(** [s[:-1]] *)
Fixpoint drop_last (s : string) : string :=
  match s with
  | "" => ""
  | String a s' => match s' with "" => "" | _ => String a (drop_last s') end
  end.

Definition is_upper (a : ascii) : bool :=
  let n := nat_of_ascii a in ((65 <=? n) && (n <=? 90))%nat.

Definition lower_char (a : ascii) : ascii :=
  if is_upper a then ascii_of_nat (nat_of_ascii a + 32) else a.

(** [s.lower()] *)
Fixpoint lower (s : string) : string :=
  match s with
  | "" => ""
  | String a s' => String (lower_char a) (lower s')
  end.

(** [s.replace(a, b)] for one-character [a] and [b] *)
Fixpoint replace (a b : ascii) (s : string) : string :=
  match s with
  | "" => ""
  | String c s' => String (if bool_decide (c = a) then b else c) (replace a b s')
  end.

(** [s.rfind(c)]: the last index of the character, [None] for -1. *)
Fixpoint rfind (s : string) (c : ascii) : option nat :=
  match s with
  | "" => None
  | String a s' =>
      match rfind s' c with
      | Some i => Some (S i)
      | None => if bool_decide (a = c) then Some 0 else None
      end
  end.

(** [s[:i]] and [s[i:]] *)
Fixpoint take (i : nat) (s : string) : string :=
  match i, s with
  | S i', String a s' => String a (take i' s')
  | _, _ => ""
  end.

Fixpoint drop (i : nat) (s : string) : string :=
  match i, s with
  | S i', String _ s' => drop i' s'
  | _, _ => s
  end.

(** [sep.join(l)] *)
Fixpoint join (sep : string) (l : list string) : string :=
  match l with
  | [] => ""
  | [x] => x
  | x :: l' => x +:+ sep +:+ join sep l'
  end.

End PyStr.

(** ** [_matches_pattern] *)

(** The body of the [for] loop for one pattern: [true] where the loop
    returns [True], [false] where it goes on to the next pattern. *)
Definition pattern_hit (filename pattern : string) : bool :=
  if PyStr.startswith pattern "*" then
    let suffix := PyStr.drop_first pattern in
    PyStr.endswith filename suffix
  else if PyStr.endswith pattern "*" then
    let prefix := PyStr.drop_last pattern in
    PyStr.startswith filename prefix
  else
    bool_decide (filename = pattern).

Fixpoint _matches_pattern (filename : string) (patterns : list string) : bool :=
  match patterns with
  | [] => false
  | pattern :: rest =>
      if pattern_hit filename pattern then true
      else _matches_pattern filename rest
  end.

(** The matching rule in the words of the specification, for one pattern. *)
Definition pattern_matches_spec (filename pattern : string) : Prop :=
  (∃ rest, pattern = "*" +:+ rest ∧ ∃ pre, filename = pre +:+ rest)
  ∨ ((∀ rest, pattern ≠ "*" +:+ rest) ∧
     ∃ pfx, pattern = pfx +:+ "*" ∧ ∃ post, filename = pfx +:+ post)
  ∨ ((∀ rest, pattern ≠ "*" +:+ rest) ∧ (∀ pfx, pattern ≠ pfx +:+ "*") ∧
     filename = pattern).

(** ** Exceptions *)

Inductive exn : Type :=
  | ValueError (msg : string)
  | OSError (msg : string)
  | FileSummaryError (msg : string).

(** [str(e)] *)
Definition exn_str (e : exn) : string :=
  match e with
  | ValueError msg | OSError msg | FileSummaryError msg => msg
  end.

Inductive result (A : Type) : Type :=
  | Ok (a : A)
  | Raise (e : exn).
Arguments Ok {A} a.
Arguments Raise {A} e.

Global Instance result_ret : MRet result := λ A a, Ok a.
Global Instance result_bind : MBind result := λ A B f r,
  match r with
  | Ok a => f a
  | Raise e => Raise e
  end.

(** [try: body except ValueError: handler]; any other exception goes on. *)
Definition try_except_ValueError {A} (body handler : result A) : result A :=
  match body with
  | Raise (ValueError _) => handler
  | _ => body
  end.

(** ** [pathlib] paths (POSIX flavour) *)

Record Path : Type := mkPath { parts : list string }.

Global Instance Path_eq_dec : EqDecision Path.
Proof. solve_decision. Defined.

Module PurePath.

(** The first part is the anchor when it starts with a slash; no other
    component of a POSIX path contains one. *)
Definition has_anchor (p : Path) : bool :=
  match parts p with
  | a :: _ => PyStr.startswith a "/"
  | [] => false
  end.

(** [p.name]: the final component, empty when only the anchor is left. *)
Definition name (p : Path) : string :=
  if (length (parts p) =? (if has_anchor p then 1 else 0))%nat then ""
  else List.last (parts p) "".

(** [p.suffix]: from the last dot of the name, unless that dot is the
    first or the last character ([0 < i < len(name) - 1]). *)
Definition suffix (p : Path) : string :=
  let name := name p in
  match PyStr.rfind name "." with
  | Some i =>
      if ((0 <? i) && (i <? String.length name - 1))%nat
      then PyStr.drop i name else ""
  | None => ""
  end.

(** [p.stem] *)
Definition stem (p : Path) : string :=
  let name := name p in
  match PyStr.rfind name "." with
  | Some i =>
      if ((0 <? i) && (i <? String.length name - 1))%nat
      then PyStr.take i name else name
  | None => name
  end.

(** [p.parent] *)
Definition parent (p : Path) : Path :=
  if ((length (parts p) =? 1)%nat && has_anchor p) then p
  else mkPath (removelast (parts p)).

(** [str(p)], also [p.as_posix()] *)
Definition str (p : Path) : string :=
  match parts p with
  | [] => "."
  | a :: rest =>
      if has_anchor p then a +:+ PyStr.join "/" rest
      else PyStr.join "/" (a :: rest)
  end.

(** [p / name] for one more component *)
Definition joinpath (p : Path) (name : string) : Path :=
  mkPath (parts p ++ [name]).

(** [other]'s parts stripped from the front of [l], if they are there. *)
Fixpoint strip_prefix (other l : list string) : option (list string) :=
  match other, l with
  | [], _ => Some l
  | o :: other', x :: l' =>
      if bool_decide (o = x) then strip_prefix other' l' else None
  | _ :: _, [] => None
  end.

(** [p.relative_to(other)]: raises [ValueError] unless [other]'s parts
    open [p]'s; an empty [other] is not above an anchored path. *)
Definition relative_to (p other : Path) : result Path :=
  let not_in_subpath :=
    ValueError ("'" +:+ str p +:+ "' is not in the subpath of '"
                +:+ str other +:+ "'") in
  match parts other with
  | [] => if has_anchor p then Raise not_in_subpath else Ok p
  | _ :: _ =>
      match strip_prefix (parts other) (parts p) with
      | Some rest => Ok (mkPath rest)
      | None => Raise not_in_subpath
      end
  end.

(** Order of paths ([p <= q]): pathlib compares the part sequences,
    element by element, each element as a string. *)
Fixpoint parts_leb (l1 l2 : list string) : bool :=
  match l1, l2 with
  | [], _ => true
  | _ :: _, [] => false
  | a :: l1', b :: l2' =>
      match String.compare a b with
      | Lt => true
      | Gt => false
      | Eq => parts_leb l1' l2'
      end
  end.

Definition le (p q : Path) : Prop := parts_leb (parts p) (parts q).

Global Instance le_dec : RelDecision le.
Proof. intros p q. unfold le. apply _. Defined.

End PurePath.

Declare Scope path_scope.
Infix "/" := PurePath.joinpath : path_scope.
Delimit Scope path_scope with path.
Bind Scope path_scope with Path.

(** ** The language table *)

Definition LANGUAGE_MAP : gmap string string :=
  list_to_map [
    (".py", "Python"); (".js", "JavaScript"); (".ts", "TypeScript");
    (".tsx", "TypeScript"); (".jsx", "JavaScript"); (".java", "Java");
    (".go", "Go"); (".rs", "Rust"); (".rb", "Ruby"); (".php", "PHP");
    (".c", "C"); (".cpp", "C++"); (".cc", "C++"); (".cxx", "C++");
    (".h", "C/C++"); (".hpp", "C++"); (".cs", "C#"); (".swift", "Swift");
    (".kt", "Kotlin"); (".scala", "Scala"); (".sh", "Shell");
    (".bash", "Bash"); (".zsh", "Zsh"); (".ps1", "PowerShell"); (".r", "R");
    (".m", "Objective-C"); (".sql", "SQL"); (".html", "HTML");
    (".css", "CSS"); (".scss", "SCSS"); (".sass", "Sass"); (".less", "Less");
    (".vue", "Vue"); (".md", "Markdown"); (".rst", "reStructuredText");
    (".yml", "YAML"); (".yaml", "YAML"); (".json", "JSON"); (".xml", "XML");
    (".toml", "TOML"); (".ini", "INI"); (".cfg", "Config");
    (".conf", "Config")
  ].

Definition _get_language (file_path : Path) : string :=
  let extension := PyStr.lower (PurePath.suffix file_path) in
  default "Unknown" (LANGUAGE_MAP !! extension).

(** ** [_generate_heuristic_summary] *)

(** [x in [a, b, ...]] on strings *)
Definition str_in (x : string) (l : list string) : bool := bool_decide (x ∈ l).

(** The [try] block that computes [path_parts]. *)
Definition relative_dir_parts (file_path root_path : Path) : result (list string) :=
  try_except_ValueError
    (rel_path ← PurePath.relative_to file_path root_path;
     mret (parts (PurePath.parent rel_path)))
    (mret []).

Definition _generate_heuristic_summary (file_path root_path : Path) : result string :=
  let name := PurePath.stem file_path in
  let extension := PyStr.lower (PurePath.suffix file_path) in
  let language := _get_language file_path in
  path_parts ← relative_dir_parts file_path root_path;
  let name_lower := PyStr.lower name in
  if str_in name_lower ["config"; "configuration"; "settings"] then
    mret (language +:+ " configuration file")
  else if PyStr.startswith name_lower "test_" || PyStr.endswith name_lower "_test"
          || PyStr.startswith name_lower "test" then
    mret (language +:+ " test file")
  else if str_in name_lower ["main"; "index"; "app"; "__main__"] then
    mret (language +:+ " main entry point")
  else if str_in name_lower ["cli"; "command"; "commands"] then
    mret (language +:+ " command-line interface")
  else if str_in name_lower ["utils"; "util"; "utilities"; "helpers"; "helper"] then
    mret (language +:+ " utility functions")
  else if str_in name_lower ["model"; "models"; "schema"; "schemas"] then
    mret (language +:+ " data models")
  else if str_in name_lower ["controller"; "controllers"; "handler"; "handlers"] then
    mret (language +:+ " request handlers")
  else if str_in name_lower ["view"; "views"; "template"; "templates"] then
    mret (language +:+ " view templates")
  else if str_in name_lower ["service"; "services"] then
    mret (language +:+ " service layer")
  else if str_in name_lower ["repository"; "repositories"; "dao"] then
    mret (language +:+ " data access layer")
  else if PyStr.contains name_lower "api" then
    mret (language +:+ " API implementation")
  else if PyStr.contains name_lower "db" || PyStr.contains name_lower "database" then
    mret (language +:+ " database operations")
  else if PyStr.contains name_lower "router" || PyStr.contains name_lower "routes" then
    mret (language +:+ " routing configuration")
  else if PyStr.contains name_lower "middleware" then
    mret (language +:+ " middleware component")
  else if str_in extension [".jsx"; ".tsx"; ".vue"]
          || PyStr.contains name_lower "component" then
    mret (language +:+ " UI component")
  else if str_in name_lower ["__init__"; "index"; "mod"] then
    if str_in "tests" path_parts || str_in "test" path_parts then
      mret (language +:+ " test module initialization")
    else
      mret (language +:+ " module initialization")
  else
    (* the code after the path-based block *)
    let default_summary :=
      let words := PyStr.replace "-" " " (PyStr.replace "_" " " name) in
      if negb (bool_decide (language = "Unknown")) then
        mret (language +:+ " module for " +:+ words)
      else
        mret ("Source file for " +:+ words) in
    match path_parts with
    | path_parts_0 :: _ =>
        let top_dir := PyStr.lower path_parts_0 in
        if str_in top_dir ["tests"; "test"] then
          mret (language +:+ " test implementation")
        else if str_in top_dir ["src"; "lib"; "core"] then
          mret (language +:+ " core implementation")
        else if str_in top_dir ["scripts"; "bin"] then
          mret (language +:+ " utility script")
        else if str_in top_dir ["docs"; "documentation"] then
          mret (language +:+ " documentation file")
        else if str_in top_dir ["examples"; "demos"; "samples"] then
          mret (language +:+ " example code")
        else default_summary
    | [] => default_summary
    end.

(** ** The file system read by the scanner *)

(** What sits at a path: a regular file, a directory with its listing, or
    a symbolic link with what it resolves to ([None] when it dangles). *)
Inductive node : Type :=
  | File
  | Dir (entries : list (string * node))
  | Symlink (target : option node).

(** Induction over a tree, with the hypothesis for every entry of a
    directory and for the target of a link. *)
Section node_induction.
Variable P : node → Prop.
Hypothesis HFile : P File.
Hypothesis HDir : ∀ entries, Forall (λ e, P e.2) entries → P (Dir entries).
Hypothesis HDangling : P (Symlink None).
Hypothesis HLink : ∀ target, P target → P (Symlink (Some target)).

Fixpoint node_tree_ind (n : node) : P n :=
  match n with
  | File => HFile
  | Dir entries =>
      HDir entries
        ((fix go (es : list (string * node)) : Forall (λ e, P e.2) es :=
            match es with
            | [] => List.Forall_nil _
            | (d, c) :: es' => List.Forall_cons _ (d, c) es' (node_tree_ind c) (go es')
            end) entries)
  | Symlink None => HDangling
  | Symlink (Some target) => HLink target (node_tree_ind target)
  end.
End node_induction.

(** [Path.is_symlink()] / [os.path.islink]: looks at the node itself. *)
Definition is_symlink (n : node) : bool :=
  match n with
  | Symlink _ => true
  | _ => false
  end.

(** [entry.is_dir()] / [os.path.isdir]: follows links. *)
Fixpoint is_dir (n : node) : bool :=
  match n with
  | Dir _ => true
  | Symlink (Some target) => is_dir target
  | _ => false
  end.

(** Whether the root handed to the scanner exists and is a directory. *)
Definition root_is_dir (fs : option node) : bool :=
  match fs with
  | Some n => is_dir n
  | None => false
  end.

(** Python truthiness of a list *)
Definition nonempty {A} (l : list A) : bool :=
  match l with
  | [] => false
  | _ :: _ => true
  end.

(** Order of [sorted(filenames)]: entries by their name. *)
Definition name_le (e1 e2 : string * node) : Prop := String.le e1.1 e2.1.

Global Instance name_le_dec : RelDecision name_le.
Proof. intros e1 e2. unfold name_le. apply _. Defined.

(** The body of [for filename in sorted(filenames)] for one entry: what
    it appends to [matching_files]. *)
Definition file_step (include_patterns exclude_patterns : list string)
    (dirpath : Path) (entry : string * node) : list Path :=
  let '(filename, n) := entry in
  let file_path := (dirpath / filename)%path in
  if is_symlink n then []
  else if nonempty include_patterns
          && negb (_matches_pattern filename include_patterns) then []
  else if nonempty exclude_patterns
          && _matches_pattern filename exclude_patterns then []
  else [file_path].

(** The two filters on [dirnames], then the test [os.walk] itself makes
    before it goes down ([followlinks] is false). *)
Definition descends (exclude_dirs : gset string) (entry : string * node) : bool :=
  let '(d, n) := entry in
  is_dir n
  && bool_decide (d ∉ exclude_dirs)
  && negb (is_symlink n)
  && negb (is_symlink n).

(** [os.walk(top, followlinks=False)] fused with the loop body of
    [scan_files]: the files appended to [matching_files], in the order of
    the loop. [os.scandir] follows a link at [top]; when it raises (no
    directory there) the walk, whose [onerror] is [None], yields nothing. *)
Fixpoint walk (include_patterns exclude_patterns : list string)
    (exclude_dirs : gset string) (dirpath : Path) (top : node) {struct top}
    : list Path :=
  match top with
  | Dir entries =>
      let filenames := filter (λ e, is_dir e.2 = false) entries in
      (merge_sort name_le filenames
         ≫= file_step include_patterns exclude_patterns dirpath)
      ++ (entries ≫= λ entry,
            match entry with
            | (d, n) =>
                if descends exclude_dirs (d, n)
                then walk include_patterns exclude_patterns exclude_dirs
                       (dirpath / d)%path n
                else []
            end)
  | Symlink (Some target) =>
      walk include_patterns exclude_patterns exclude_dirs dirpath target
  | Symlink None | File => []
  end.

(** The descent into one entry of [dirnames], as [walk] makes it. *)
Definition walk_entry (include_patterns exclude_patterns : list string)
    (exclude_dirs : gset string) (dirpath : Path) (entry : string * node)
    : list Path :=
  match entry with
  | (d, n) =>
      if descends exclude_dirs (d, n)
      then walk include_patterns exclude_patterns exclude_dirs
             (dirpath / d)%path n
      else []
  end.

(** [sorted(matching_files)] *)
Definition sorted_paths : list Path → list Path := merge_sort PurePath.le.

(** [fs] is what the file system has at [root_path]. *)
Definition scan_files (fs : option node) (root_path : Path)
    (include_patterns exclude_patterns : option (list string))
    (exclude_dirs : option (gset string)) : result (list Path) :=
  let include_patterns := default [] include_patterns in
  let exclude_patterns := default [] exclude_patterns in
  let exclude_dirs := default ∅ exclude_dirs in
  let matching_files :=
    match fs with
    | Some top => walk include_patterns exclude_patterns exclude_dirs root_path top
    | None => []
    end in
  mret (sorted_paths matching_files).

(** ** Vocabulary for the scanner's properties *)

(** The listing [os.scandir] gives at a node; a link is followed. *)
Fixpoint entries_of (n : node) : list (string * node) :=
  match n with
  | Dir entries => entries
  | Symlink (Some target) => entries_of target
  | _ => []
  end.

(** [resolves top rel nodes]: going down from [top] along the names [rel]
    meets [nodes], one node for each name, the last one for the whole of
    [rel]. *)
Inductive resolves : node → list string → list node → Prop :=
  | resolves_nil top : resolves top [] []
  | resolves_cons top d n rel nodes :
      (d, n) ∈ entries_of top →
      resolves n rel nodes →
      resolves top (d :: rel) (n :: nodes).

(** A directory has one entry for a name. *)
Inductive unique_names : node → Prop :=
  | unique_File : unique_names File
  | unique_Dir entries :
      NoDup entries.*1 →
      Forall (λ e, unique_names e.2) entries →
      unique_names (Dir entries)
  | unique_dangling : unique_names (Symlink None)
  | unique_link target :
      unique_names target → unique_names (Symlink (Some target)).

(** Two trees with the same contents, whose directories may list their
    entries in different orders. *)
Inductive same_tree : node → node → Prop :=
  | same_File : same_tree File File
  | same_Dir es es' : same_listing es es' → same_tree (Dir es) (Dir es')
  | same_dangling : same_tree (Symlink None) (Symlink None)
  | same_link t t' :
      same_tree t t' → same_tree (Symlink (Some t)) (Symlink (Some t'))
with same_listing : list (string * node) → list (string * node) → Prop :=
  | same_nil : same_listing [] []
  | same_skip d n n' es es' :
      same_tree n n' → same_listing es es' →
      same_listing ((d, n) :: es) ((d, n') :: es')
  | same_swap e1 e2 es : same_listing (e1 :: e2 :: es) (e2 :: e1 :: es)
  | same_trans es1 es2 es3 :
      same_listing es1 es2 → same_listing es2 es3 → same_listing es1 es3.

Scheme same_tree_mut := Induction for same_tree Sort Prop
  with same_listing_mut := Induction for same_listing Sort Prop.
Combined Scheme same_tree_listing_ind from same_tree_mut, same_listing_mut.

(** [str(p) <= str(q)]: the order of the full path strings. *)
Definition str_le (p q : Path) : Prop :=
  String.le (PurePath.str p) (PurePath.str q).

(** ** The report generator *)

(** One element of [summaries]: the dict with keys [path], [language] and
    [summary]. *)
Record summary_entry : Type := mkEntry {
  entry_path : string;
  entry_language : string;
  entry_summary : string;
}.

(** What a written file holds: the text given to [f.write], or the value
    given to [json.dump] (the dict with [total_files] and [files]). *)
Inductive content : Type :=
  | Text (s : string)
  | Json (total_files : nat) (files : list summary_entry).

(** Where the report goes: the files on disk by path string, the paths
    that [open(path, 'w')] refuses with the message of its [OSError], the
    lines printed so far, and the paths at which the write through the
    open file ([f.write], [json.dump], the flush at the close) raises,
    with what the failed write leaves in the file and the exception. *)
Record world : Type := mkWorld {
  disk : gmap string content;
  unwritable : gmap string string;
  stdout : list string;
  write_fails : gmap string (content * exn);
}.

(** Computations that print, write and may raise. *)
Definition IO (A : Type) : Type := world → result A * world.

Global Instance IO_ret : MRet IO := λ A a w, (Ok a, w).
Global Instance IO_bind : MBind IO := λ A B f m w,
  match m w with
  | (Ok a, w') => f a w'
  | (Raise e, w') => (Raise e, w')
  end.

Definition lift {A} (r : result A) : IO A := λ w, (r, w).

(** [print(s)] *)
Definition print (s : string) : IO unit := λ w,
  (Ok (), mkWorld (disk w) (unwritable w) (stdout w ++ [s]) (write_fails w)).

(** [open(path, 'w', encoding='utf-8')]: raises, or leaves an empty file. *)
Definition open_w (path : Path) : IO unit := λ w,
  match unwritable w !! PurePath.str path with
  | Some msg => (Raise (OSError msg), w)
  | None =>
      (Ok (), mkWorld (<[PurePath.str path := Text ""]> (disk w))
                (unwritable w) (stdout w) (write_fails w))
  end.

(** What is written through the open file, up to its close: the write
    raises and leaves the file short, or the file holds [c]. *)
Definition write (path : Path) (c : content) : IO unit := λ w,
  match write_fails w !! PurePath.str path with
  | Some (partial, e) =>
      (Raise e, mkWorld (<[PurePath.str path := partial]> (disk w))
                  (unwritable w) (stdout w) (write_fails w))
  | None =>
      (Ok (), mkWorld (<[PurePath.str path := c]> (disk w))
                (unwritable w) (stdout w) (write_fails w))
  end.

(** [try: body except Exception as e: handler(e)] *)
Definition try_except_Exception {A} (body : IO A) (handler : exn → IO A) : IO A :=
  λ w,
    match body w with
    | (Ok a, w') => (Ok a, w')
    | (Raise e, w') => handler e w'
    end.

(** A [for] loop that appends one value for each element. *)
Fixpoint for_each {A B} (f : A → result B) (l : list A) : result (list B) :=
  match l with
  | [] => mret []
  | x :: l' => y ← f x; ys ← for_each f l'; mret (y :: ys)
  end.

Definition newline : string := String (ascii_of_nat 10) "".

(** The body of [for file_path in files]. *)
Definition summarise (root_path file_path : Path) : result summary_entry :=
  rel_path ← try_except_ValueError
                (PurePath.relative_to file_path root_path)
                (mret file_path);
  let language := _get_language file_path in
  summary ← _generate_heuristic_summary file_path root_path;
  mret (mkEntry (PurePath.str rel_path) language summary).

(** [markdown_content] *)
Definition markdown_of (summaries : list summary_entry) : string :=
  let markdown_lines :=
    ["# File Summaries" +:+ newline;
     "Heuristic summaries of source files based on filenames, extensions, and paths."
       +:+ newline;
     "Total files: " +:+ pretty (length summaries) +:+ newline]
    ++ (summaries ≫= λ entry,
          ["## " +:+ entry_path entry;
           "**Language:** " +:+ entry_language entry +:+ "  ";
           "**Summary:** " +:+ entry_summary entry +:+ newline]) in
  PyStr.join newline markdown_lines.

(** [fs] is the tree at [root_path] as the scan of this run finds it. The
    store the artifacts go to is kept apart from it: a later run is given
    the tree as it is then, with the artifacts of an earlier run in it
    when [output_dir] lies inside the root. *)
Definition generate_file_summaries (fs : option node)
    (root_path output_dir : Path)
    (include_patterns : option (list string))
    (exclude_dirs : option (gset string)) (dry_run : bool) : IO unit :=
  try_except_Exception
    (files ← lift (scan_files fs root_path include_patterns None exclude_dirs);
     if negb (nonempty files) then
       if dry_run then print "[DRY RUN] No files found matching criteria"
       else print "No files found matching criteria"
     else
       summaries ← lift (for_each (summarise root_path) files);
       let markdown_content := markdown_of summaries in
       let markdown_path := (output_dir / "file-summaries.md")%path in
       (if dry_run then
          print ("[DRY RUN] Would write file-summaries.md to: "
                 +:+ PurePath.str markdown_path);;
          print ("[DRY RUN] Content length: "
                 +:+ pretty (String.length markdown_content) +:+ " bytes");;
          print ("[DRY RUN] Total files: " +:+ pretty (length summaries))
        else
          open_w markdown_path;;
          write markdown_path (Text markdown_content);;
          print ("File summaries written: " +:+ PurePath.str markdown_path));;
       let json_data := Json (length summaries) summaries in
       let json_path := (output_dir / "file-summaries.json")%path in
       if dry_run then
         print ("[DRY RUN] Would write file-summaries.json to: "
                +:+ PurePath.str json_path);;
         print ("[DRY RUN] JSON entries: " +:+ pretty (length summaries))
       else
         open_w json_path;;
         write json_path json_data;;
         print ("File summaries JSON written: " +:+ PurePath.str json_path))
    (λ e, lift (Raise (FileSummaryError
                         ("Failed to generate file summaries: " +:+ exn_str e)))).

(** The outcome of a run, told from the scanned [files] and their
    [summaries]: the result and the world it leaves. *)
Definition report_outcome (output_dir : Path) (dry_run : bool)
    (files : list Path) (summaries : list summary_entry) (w : world)
    : result unit * world :=
  let md := PurePath.str (output_dir / "file-summaries.md")%path in
  let json := PurePath.str (output_dir / "file-summaries.json")%path in
  let failed (msg : string) : result unit :=
    Raise (FileSummaryError ("Failed to generate file summaries: " +:+ msg)) in
  match files with
  | [] =>
      (Ok (), mkWorld (disk w) (unwritable w)
                (stdout w ++
                   [if dry_run
                    then "[DRY RUN] No files found matching criteria"
                    else "No files found matching criteria"])
                (write_fails w))
  | _ :: _ =>
      if dry_run then
        (Ok (), mkWorld (disk w) (unwritable w)
                  (stdout w ++
                     ["[DRY RUN] Would write file-summaries.md to: " +:+ md;
                      "[DRY RUN] Content length: "
                        +:+ pretty (String.length (markdown_of summaries))
                        +:+ " bytes";
                      "[DRY RUN] Total files: " +:+ pretty (length summaries);
                      "[DRY RUN] Would write file-summaries.json to: " +:+ json;
                      "[DRY RUN] JSON entries: " +:+ pretty (length summaries)])
                  (write_fails w))
      else
        match unwritable w !! md with
        | Some msg => (failed msg, w)
        | None =>
            match write_fails w !! md with
            | Some (partial, e) =>
                (failed (exn_str e),
                 mkWorld (<[md := partial]> (disk w)) (unwritable w) (stdout w)
                   (write_fails w))
            | None =>
                let written := <[md := Text (markdown_of summaries)]> (disk w) in
                let printed := stdout w ++ ["File summaries written: " +:+ md] in
                match unwritable w !! json with
                | Some msg =>
                    (failed msg,
                     mkWorld written (unwritable w) printed (write_fails w))
                | None =>
                    match write_fails w !! json with
                    | Some (partial, e) =>
                        (failed (exn_str e),
                         mkWorld (<[json := partial]> written) (unwritable w)
                           printed (write_fails w))
                    | None =>
                        (Ok (),
                         mkWorld
                           (<[json := Json (length summaries) summaries]> written)
                           (unwritable w)
                           (stdout w ++
                              ["File summaries written: " +:+ md;
                               "File summaries JSON written: " +:+ json])
                           (write_fails w))
                    end
                end
            end
        end
  end.

(** [picked inc exc exd top rel]: below [top], the names [rel] lead,
    through directories that are neither links nor excluded by name, to a
    regular file whose name passes the two pattern filters. *)
Inductive picked (inc exc : list string) (exd : gset string)
    : node → list string → Prop :=
  | picked_file top filename :
      (filename, File) ∈ entries_of top →
      nonempty inc = false ∨ _matches_pattern filename inc = true →
      nonempty exc = false ∨ _matches_pattern filename exc = false →
      picked inc exc exd top [filename]
  | picked_dir top d entries rel :
      (d, Dir entries) ∈ entries_of top →
      d ∉ exd →
      picked inc exc exd (Dir entries) rel →
      picked inc exc exd top (d :: rel).

(** ** Example trees *)

(** A repository with a linked file and a linked directory. *)
Definition linked_tree : node :=
  Dir [("app.py", File);
       ("latest.py", Symlink (Some File));
       ("vendor", Symlink (Some (Dir [("lib.py", File)])));
       ("src", Dir [("core.py", File)])].

(** One tree under two listing orders. *)
Definition listing_one : node :=
  Dir [("b.py", File); ("a", Dir [("x.py", File); ("w.py", File)])].

Definition listing_two : node :=
  Dir [("a", Dir [("w.py", File); ("x.py", File)]); ("b.py", File)].

(* ================================================================= *)
(** * Properties *)

(** ** Facts about the string primitives *)

Section pystr_facts.
Import PyStr.

Lemma app_cons_s (a : ascii) (s t : string) :
  String a s +:+ t = String a (s +:+ t).
Proof. done. Qed.


Lemma app_nil_r_s (s : string) : s +:+ "" = s.
Proof. induction s as [|a s IH]; [done|]. by rewrite app_cons_s, IH. Qed.

Lemma app_assoc_s (a b c : string) : (a +:+ b) +:+ c = a +:+ (b +:+ c).
Proof. induction a as [|x a IH]; [done|]. by rewrite !app_cons_s, IH. Qed.

Lemma startswith_spec (s p : string) :
  startswith s p = true ↔ ∃ r, s = p +:+ r.
Proof.
  revert s. induction p as [|b p IH]; intros s.
  - destruct s; cbn; split; eauto.
  - destruct s as [|a s]; cbn.
    + split; [done|]. intros [r Hr]. discriminate.
    + rewrite andb_true_iff, bool_decide_eq_true, IH. split.
      * intros [-> [r ->]]. by exists r.
      * intros [r Hr]. injection Hr as -> ->. eauto.
Qed.

Lemma endswith_spec (s p : string) :
  endswith s p = true ↔ ∃ pre, s = pre +:+ p.
Proof.
  induction s as [|a s IH]; cbn.
  - rewrite orb_false_r, bool_decide_eq_true. split.
    + intros <-. by exists "".
    + intros [[|b pre] Hp]; [done | discriminate].
  - rewrite orb_true_iff, bool_decide_eq_true, IH. split.
    + intros [<- | [pre ->]]; [by exists "" | by exists (String a pre)].
    + intros [[|b pre] Hp]; [by left | right].
      injection Hp as -> ->. eauto.
Qed.

Lemma contains_spec (s sub : string) :
  contains s sub = true ↔ ∃ pre post, s = pre +:+ sub +:+ post.
Proof.
  induction s as [|a s IH]; cbn [contains].
  - rewrite orb_false_r, startswith_spec. split.
    + intros [r Hr]. by exists "", r.
    + intros [[|b pre] [post Hp]]; [eauto | discriminate].
  - rewrite orb_true_iff, startswith_spec, IH. split.
    + intros [[r Hr] | (pre & post & ->)];
        [by exists "", r | by exists (String a pre), post].
    + intros [[|b pre] [post Hp]]; [left; eauto | right].
      injection Hp as -> ->. eauto.
Qed.

Lemma contains_prefix (s t : string) : contains (s +:+ t) s = true.
Proof. apply contains_spec. by exists "", t. Qed.

Lemma drop_first_star (p : string) :
  startswith p "*" = true → p = "*" +:+ drop_first p.
Proof. intros [r ->]%startswith_spec. done. Qed.

Lemma drop_last_snoc (s : string) (a : ascii) :
  drop_last (s +:+ String a "") = s.
Proof.
  induction s as [|b s IH]; [done|].
  rewrite app_cons_s. cbn [drop_last]. rewrite IH.
  destruct s; done.
Qed.

Lemma drop_last_star (p : string) :
  endswith p "*" = true → p = drop_last p +:+ "*".
Proof. intros [pre ->]%endswith_spec. by rewrite drop_last_snoc. Qed.

End pystr_facts.

(** ** The pattern matcher meets its specification *)

Lemma pattern_hit_spec (filename pattern : string) :
  pattern_hit filename pattern = true ↔ pattern_matches_spec filename pattern.
Proof.
  unfold pattern_hit, pattern_matches_spec.
  destruct (PyStr.startswith pattern "*") eqn:Hs.
  - pose proof (drop_first_star _ Hs) as Hp.
    rewrite endswith_spec. split.
    + intros Hpre. left. eauto.
    + intros [(rest & Hr & pre & ->) | [[Hn _] | [Hn _]]].
      * rewrite Hr. by exists pre.
      * by destruct (Hn _ Hp).
      * by destruct (Hn _ Hp).
  - assert (∀ rest, pattern ≠ "*" +:+ rest) as Hnostar.
    { intros rest ->. by rewrite (proj2 (startswith_spec _ _)) in Hs by eauto. }
    destruct (PyStr.endswith pattern "*") eqn:He.
    + pose proof (drop_last_star _ He) as Hp.
      rewrite startswith_spec. split.
      * intros Hpost. right; left. eauto.
      * intros [(rest & Hr & _) | [(_ & pfx & Hpfx & post & ->) | (_ & Hn & _)]].
        -- by destruct (Hnostar rest).
        -- rewrite Hpfx, drop_last_snoc. by exists post.
        -- by destruct (Hn _ Hp).
    + assert (∀ pfx, pattern ≠ pfx +:+ "*") as Hnoend.
      { intros pfx ->. by rewrite (proj2 (endswith_spec _ _)) in He by eauto. }
      rewrite bool_decide_eq_true. split.
      * intros ->. right; right. done.
      * intros [(rest & Hr & _) | [(_ & pfx & Hpfx & _) | (_ & _ & ->)]].
        -- by destruct (Hnostar rest).
        -- by destruct (Hnoend pfx).
        -- done.
Qed.

(** C6: [_matches_pattern] answers [True] exactly when some pattern of the
    list matches the file name, where a pattern starting with a star is a
    suffix test on the rest of the pattern, a pattern ending with a star
    (and not starting with one) is a prefix test, and any other pattern,
    a star in the middle included, is compared for equality. *)
Theorem matches_pattern_spec (filename : string) (patterns : list string) :
  _matches_pattern filename patterns = true ↔
  ∃ pattern, pattern ∈ patterns ∧ pattern_matches_spec filename pattern.
Proof.
  induction patterns as [|p ps IH]; cbn.
  - split; [done|]. intros (p & Hin & _). by apply elem_of_nil in Hin.
  - destruct (pattern_hit filename p) eqn:Hp.
    + split; [|done]. intros _. exists p. split; [left|].
      by apply pattern_hit_spec.
    + rewrite IH. split.
      * intros (q & Hin & Hq). exists q. split; [by right | done].
      * intros (q & Hin & Hq). apply elem_of_cons in Hin as [-> | Hin].
        -- apply pattern_hit_spec in Hq. congruence.
        -- eauto.
Qed.

(** A star inside a pattern is an ordinary character. *)
Example matches_pattern_mid_star :
  _matches_pattern "axb" ["a*b"] = false ∧ _matches_pattern "a*b" ["a*b"] = true.
Proof. done. Qed.

(** ** The heuristic summary *)

Lemma relative_to_raises (p other : Path) (e : exn) :
  PurePath.relative_to p other = Raise e → ∃ msg, e = ValueError msg.
Proof.
  unfold PurePath.relative_to. intros H.
  repeat case_match; simplify_eq; eauto.
Qed.

Lemma relative_dir_parts_ok (file_path root_path : Path) :
  ∃ path_parts, relative_dir_parts file_path root_path = Ok path_parts.
Proof.
  unfold relative_dir_parts.
  destruct (PurePath.relative_to file_path root_path) as [rel|e] eqn:Hrel.
  - eexists. reflexivity.
  - destruct (relative_to_raises _ _ _ Hrel) as [msg ->]. eexists. reflexivity.
Qed.

Lemma relative_dir_parts_outside (file_path root_path : Path) (e : exn) :
  PurePath.relative_to file_path root_path = Raise e →
  relative_dir_parts file_path root_path = Ok [].
Proof.
  intros Hrel. unfold relative_dir_parts. rewrite Hrel.
  by destruct (relative_to_raises _ _ _ Hrel) as [msg ->].
Qed.

(** C4: a file whose stem is [api_test] gets the test-file summary; the
    API rule, which its name also satisfies, comes later in the chain and
    is not the one that answers. *)
Theorem api_test_is_test_file (file_path root_path : Path) :
  PurePath.stem file_path = "api_test" →
  _generate_heuristic_summary file_path root_path
    = Ok (_get_language file_path +:+ " test file")
  ∧ PyStr.contains (PyStr.lower (PurePath.stem file_path)) "api" = true
  ∧ _generate_heuristic_summary file_path root_path
    ≠ Ok (_get_language file_path +:+ " API implementation").
Proof.
  intros Hstem.
  assert (_generate_heuristic_summary file_path root_path
          = Ok (_get_language file_path +:+ " test file")) as Hsum.
  { unfold _generate_heuristic_summary.
    destruct (relative_dir_parts_ok file_path root_path) as [path_parts ->].
    rewrite Hstem. reflexivity. }
  split; [done|]. split; [by rewrite Hstem|].
  rewrite Hsum. intros [= Heq]. by apply (inj (String.app _)) in Heq.
Qed.

Lemma api_test_is_test_file_witness :
  PurePath.stem (mkPath ["repo"; "pkg"; "api_test.py"]) = "api_test"
  ∧ _generate_heuristic_summary
      (mkPath ["repo"; "pkg"; "api_test.py"]) (mkPath ["repo"])
    = Ok "Python test file".
Proof.
  split; [reflexivity|].
  apply (api_test_is_test_file (mkPath ["repo"; "pkg"; "api_test.py"])
           (mkPath ["repo"])).
  reflexivity.
Defined.

(** C10: a file whose lower-cased stem is [index] gets the entry-point
    summary; the [index] case of the module-initialisation rule, in either
    of its two phrasings, never answers for it. *)
Theorem index_is_entry_point (file_path root_path : Path) :
  PyStr.lower (PurePath.stem file_path) = "index" →
  _generate_heuristic_summary file_path root_path
    = Ok (_get_language file_path +:+ " main entry point")
  ∧ _generate_heuristic_summary file_path root_path
    ≠ Ok (_get_language file_path +:+ " module initialization")
  ∧ _generate_heuristic_summary file_path root_path
    ≠ Ok (_get_language file_path +:+ " test module initialization").
Proof.
  intros Hstem.
  assert (_generate_heuristic_summary file_path root_path
          = Ok (_get_language file_path +:+ " main entry point")) as Hsum.
  { unfold _generate_heuristic_summary.
    destruct (relative_dir_parts_ok file_path root_path) as [path_parts ->].
    cbn [mbind result_bind]. rewrite Hstem. reflexivity. }
  split; [done|]. rewrite Hsum.
  split; intros [= Heq]; by apply (inj (String.app _)) in Heq.
Qed.

Lemma index_is_entry_point_witness :
  PyStr.lower (PurePath.stem (mkPath ["repo"; "tests"; "Index.js"])) = "index"
  ∧ _generate_heuristic_summary
      (mkPath ["repo"; "tests"; "Index.js"]) (mkPath ["repo"])
    = Ok "JavaScript main entry point".
Proof.
  split; [reflexivity|].
  apply (index_is_entry_point (mkPath ["repo"; "tests"; "Index.js"])
           (mkPath ["repo"])).
  reflexivity.
Defined.

Lemma app_eq_nil_s (s t : string) : s +:+ t = "" → s = "" ∧ t = "".
Proof. destruct s; [done|]. rewrite app_cons_s. done. Qed.

(** One answer of the rule chain that opens with the language label. *)
Local Ltac labelled_branch :=
  eexists; split; [reflexivity|]; split;
    [ intros [_ [=]]%app_eq_nil_s
    | split; [left; apply contains_prefix | assumption] ].

(** The rule chain always comes to an answer. *)
Lemma heuristic_summary_returns (file_path root_path : Path) :
  ∃ summary, _generate_heuristic_summary file_path root_path = Ok summary.
Proof.
  unfold _generate_heuristic_summary.
  destruct (relative_dir_parts_ok file_path root_path) as [path_parts ->].
  cbn [mbind result_bind].
  repeat case_match; eexists; reflexivity.
Qed.

(** C5: the summary function never raises, whatever the two paths are; a
    path outside the root only empties the directory parts. Its answer is
    never the empty string, and it contains the language label, except
    when it is the default phrase of a file of unknown language. *)
Theorem heuristic_summary_total (file_path root_path : Path) :
  ∃ summary,
    _generate_heuristic_summary file_path root_path = Ok summary
    ∧ summary ≠ ""
    ∧ (PyStr.contains summary (_get_language file_path) = true
       ∨ (_get_language file_path = "Unknown"
          ∧ summary = "Source file for "
              +:+ PyStr.replace "-" " "
                    (PyStr.replace "_" " " (PurePath.stem file_path))))
    ∧ (∀ e, PurePath.relative_to file_path root_path = Raise e →
            relative_dir_parts file_path root_path = Ok []).
Proof.
  pose proof (relative_dir_parts_outside file_path root_path) as Hout.
  unfold _generate_heuristic_summary.
  destruct (relative_dir_parts_ok file_path root_path) as [path_parts Hparts].
  rewrite Hparts in *. cbn [mbind result_bind].
  generalize (PyStr.lower (PurePath.stem file_path)) as name_lower.
  generalize (PyStr.lower (PurePath.suffix file_path)) as extension.
  generalize (PurePath.stem file_path) as name.
  generalize dependent (_get_language file_path).
  intros language name extension name_lower.
  repeat (match goal with
          | |- context [if ?b then _ else _] => destruct b eqn:?
          | |- context [match ?l with [] => _ | _ :: _ => _ end] => destruct l
          end; try labelled_branch).
  all: match goal with
       | H : negb (bool_decide (?l = "Unknown")) = false |- _ =>
           apply negb_false_iff, bool_decide_eq_true in H; subst l
       end.
  all: eexists; split; [reflexivity|]; split; [done|]; split; [|assumption].
  all: right; done.
Qed.

(** ** The order of paths *)

Section path_order.
Import PurePath.

Lemma str_compare_refl (a : string) : String.compare a a = Eq.
Proof.
  pose proof (String.compare_antisym a a) as H.
  by destruct (String.compare a a).
Qed.

Lemma str_compare_lt_le (a b : string) :
  String.compare a b = Lt → String.le a b ∧ a ≠ b.
Proof.
  intros H. split.
  - unfold String.le, String.leb. by rewrite H.
  - intros ->. by rewrite str_compare_refl in H.
Qed.

Lemma str_le_compare (a b : string) :
  String.le a b → a ≠ b → String.compare a b = Lt.
Proof.
  unfold String.le, String.leb. intros Hle Hne.
  destruct (String.compare a b) eqn:Hc; [|done..].
  by apply String.compare_eq_iff in Hc.
Qed.

Lemma str_compare_lt_trans (a b c : string) :
  String.compare a b = Lt → String.compare b c = Lt → String.compare a c = Lt.
Proof.
  intros [Hab Hne1]%str_compare_lt_le [Hbc Hne2]%str_compare_lt_le.
  apply str_le_compare; [by etrans|].
  intros ->. apply Hne1. by apply (anti_symm String.le).
Qed.

Lemma str_compare_gt_lt (a b : string) :
  String.compare a b = Gt → String.compare b a = Lt.
Proof. intros H. by rewrite String.compare_antisym, H. Qed.

Lemma parts_leb_refl (l : list string) : parts_leb l l = true.
Proof. induction l as [|a l IH]; [done|]. cbn. by rewrite str_compare_refl. Qed.

Lemma parts_leb_trans (l1 l2 l3 : list string) :
  parts_leb l1 l2 = true → parts_leb l2 l3 = true → parts_leb l1 l3 = true.
Proof.
  revert l2 l3. induction l1 as [|a l1 IH]; intros [|b l2] [|c l3]; cbn; try done.
  destruct (String.compare a b) eqn:Hab; [| |done].
  - apply String.compare_eq_iff in Hab as ->.
    destruct (String.compare b c); [apply IH|done..].
  - destruct (String.compare b c) eqn:Hbc; [| |done]; intros _ _.
    + apply String.compare_eq_iff in Hbc as ->. by rewrite Hab.
    + by rewrite (str_compare_lt_trans _ _ _ Hab Hbc).
Qed.

Lemma parts_leb_antisym (l1 l2 : list string) :
  parts_leb l1 l2 = true → parts_leb l2 l1 = true → l1 = l2.
Proof.
  revert l2. induction l1 as [|a l1 IH]; intros [|b l2]; cbn; try done.
  destruct (String.compare a b) eqn:Hab.
  - apply String.compare_eq_iff in Hab as ->. rewrite str_compare_refl.
    intros H1 H2. f_equal. by apply IH.
  - rewrite String.compare_antisym, Hab. done.
  - done.
Qed.

Lemma parts_leb_total (l1 l2 : list string) :
  parts_leb l1 l2 = true ∨ parts_leb l2 l1 = true.
Proof.
  revert l2. induction l1 as [|a l1 IH]; intros [|b l2]; cbn; auto.
  rewrite (String.compare_antisym a b).
  destruct (String.compare b a); cbn; auto.
Qed.

Global Instance path_le_po : PartialOrder le.
Proof.
  split; [split|].
  - intros p. apply Is_true_true, parts_leb_refl.
  - intros p q r ?%Is_true_true ?%Is_true_true.
    apply Is_true_true. by eapply parts_leb_trans.
  - intros [l1] [l2] ?%Is_true_true ?%Is_true_true.
    f_equal. by apply parts_leb_antisym.
Qed.

Global Instance path_le_total : Total le.
Proof.
  intros p q. unfold le.
  destruct (parts_leb_total (parts p) (parts q)) as [-> | ->]; auto.
Qed.

End path_order.

Lemma sorted_paths_sorted (l : list Path) :
  Sorted PurePath.le (sorted_paths l).
Proof. apply (Sorted_merge_sort _). Qed.

Lemma sorted_paths_perm (l : list Path) : sorted_paths l ≡ₚ l.
Proof. apply merge_sort_Permutation. Qed.

(** Sorting forgets the order in which the files were collected. *)
Lemma sorted_paths_proper (l1 l2 : list Path) :
  l1 ≡ₚ l2 → sorted_paths l1 = sorted_paths l2.
Proof.
  intros Hperm. apply (Sorted_unique PurePath.le); try apply sorted_paths_sorted.
  by rewrite !sorted_paths_perm.
Qed.

(** ** The scanner *)

Lemma walk_not_dir inc exc exd (dirpath : Path) (top : node) :
  is_dir top = false → walk inc exc exd dirpath top = [].
Proof.
  induction top as [|entries _| |target IH] using node_tree_ind; cbn; auto.
  done.
Qed.

(** C1 (as the code has it): a root that is missing, or is not a
    directory, raises nothing; the scan answers with the empty list. *)
Theorem scan_files_no_root (fs : option node) (root_path : Path)
    (include_patterns exclude_patterns : option (list string))
    (exclude_dirs : option (gset string)) :
  root_is_dir fs = false →
  scan_files fs root_path include_patterns exclude_patterns exclude_dirs = Ok [].
Proof.
  intros Hroot. unfold scan_files.
  destruct fs as [top|]; [|done].
  by rewrite walk_not_dir.
Qed.

Lemma scan_files_no_root_witness :
  root_is_dir (Some File) = false
  ∧ scan_files (Some File) (mkPath ["repo"; "README.md"]) (Some ["*.md"]) None None
    = Ok [].
Proof.
  split; [reflexivity|].
  apply (scan_files_no_root (Some File) (mkPath ["repo"; "README.md"])).
  reflexivity.
Defined.

(** C1, the claim as written, fails: for a root that does not exist the
    scan does not raise, it returns the empty list. *)
Lemma scan_files_missing_root_is_silent :
  root_is_dir None = false
  ∧ scan_files None (mkPath ["no"; "such"; "dir"]) None None None = Ok []
  ∧ ¬ (∀ (fs : option node) (root_path : Path), root_is_dir fs = false →
         ∃ e, scan_files fs root_path None None None = Raise e).
Proof.
  split; [done|]. split; [done|].
  intros Hclaim. destruct (Hclaim None (mkPath ["no"; "such"; "dir"])) as [e He]; [done|].
  discriminate He.
Qed.

Lemma walk_Dir inc exc exd (dirpath : Path) (entries : list (string * node)) :
  walk inc exc exd dirpath (Dir entries)
  = (merge_sort name_le (filter (λ e, is_dir e.2 = false) entries)
       ≫= file_step inc exc dirpath)
    ++ (entries ≫= walk_entry inc exc exd dirpath).
Proof. reflexivity. Qed.

Lemma file_step_elem inc exc (dirpath p : Path) (d : string) (n : node) :
  p ∈ file_step inc exc dirpath (d, n) →
  p = (dirpath / d)%path ∧ is_symlink n = false.
Proof.
  unfold file_step. intros Hin.
  repeat case_match; try by apply elem_of_nil in Hin.
  by apply list_elem_of_singleton in Hin.
Qed.

Lemma descends_not_symlink exd (d : string) (n : node) :
  descends exd (d, n) = true → is_symlink n = false.
Proof.
  unfold descends. rewrite !andb_true_iff, negb_true_iff. by intros [_ ?].
Qed.

Lemma resolves_same_listing (a b : node) (rel : list string) (nodes : list node) :
  entries_of a = entries_of b → resolves a rel nodes → resolves b rel nodes.
Proof.
  intros Heq Hres. destruct Hres as [|top d n rel nodes Hin Hrest].
  - constructor.
  - constructor; [by rewrite <-Heq | done].
Qed.

(** Every collected path names a node of the tree that is reached from the
    root of the walk through nodes none of which is a link. *)
Lemma walk_resolves inc exc exd (top : node) :
  ∀ (dirpath p : Path),
    p ∈ walk inc exc exd dirpath top →
    ∃ rel nodes,
      parts p = parts dirpath ++ rel
      ∧ resolves top rel nodes
      ∧ nodes ≠ []
      ∧ Forall (λ m, is_symlink m = false) nodes.
Proof.
  induction top as [|entries IH| |target IH] using node_tree_ind;
    intros dirpath p Hin.
  - by apply elem_of_nil in Hin.
  - rewrite walk_Dir in Hin. apply elem_of_app in Hin as [Hin | Hin].
    + apply list_elem_of_bind in Hin as ([d n] & Hp & He).
      rewrite merge_sort_Permutation in He.
      apply list_elem_of_filter in He as [_ He].
      apply file_step_elem in Hp as [-> Hn].
      exists [d], [n]. split_and!; [done| |done|by repeat constructor].
      constructor; [done | constructor].
    + apply list_elem_of_bind in Hin as ([d n] & Hp & He).
      cbn [walk_entry] in Hp.
      destruct (descends exd (d, n)) eqn:Hd; [|by apply elem_of_nil in Hp].
      rewrite Forall_forall in IH.
      destruct (IH _ He _ _ Hp) as (rel & nodes & Hparts & Hres & _ & Hall).
      exists (d :: rel), (n :: nodes). split_and!.
      * rewrite Hparts. cbn. by rewrite <-(assoc_L (++)).
      * by constructor.
      * done.
      * constructor; [by eapply descends_not_symlink | done].
  - by apply elem_of_nil in Hin.
  - destruct (IH _ _ Hin) as (rel & nodes & Hparts & Hres & Hne & Hall).
    exists rel, nodes. split_and!; try done.
    by eapply resolves_same_listing; [|done].
Qed.

Lemma nodup_fst_functional {A B} (l : list (A * B)) (x : A) (y1 y2 : B) :
  NoDup l.*1 → (x, y1) ∈ l → (x, y2) ∈ l → y1 = y2.
Proof.
  induction l as [|[x' y'] l IH]; cbn; intros Hnd H1 H2.
  - by apply elem_of_nil in H1.
  - apply NoDup_cons in Hnd as [Hnotin Hnd].
    apply elem_of_cons in H1 as [H1 | H1], H2 as [H2 | H2]; simplify_eq.
    + done.
    + destruct Hnotin. apply list_elem_of_fmap. by exists (x', y2).
    + destruct Hnotin. apply list_elem_of_fmap. by exists (x', y1).
    + by apply IH.
Qed.

Lemma unique_names_entries (top : node) :
  unique_names top →
  NoDup (entries_of top).*1 ∧ Forall (λ e, unique_names e.2) (entries_of top).
Proof.
  induction top as [|entries _| |target IH] using node_tree_ind;
    intros Hu; cbn.
  - split; constructor.
  - by inversion Hu.
  - split; constructor.
  - inversion Hu; subst. by apply IH.
Qed.

Lemma resolves_functional (top : node) (rel : list string) (nodes1 nodes2 : list node) :
  unique_names top →
  resolves top rel nodes1 → resolves top rel nodes2 → nodes1 = nodes2.
Proof.
  intros Hu H1. revert nodes2 Hu.
  induction H1 as [top|top d n rel nodes Hin Hrest IH]; intros nodes2 Hu H2.
  - by inversion H2.
  - inversion H2 as [|? ? n' ? nodes' Hin' Hrest']; subst.
    destruct (unique_names_entries _ Hu) as [Hnd Hall].
    assert (n' = n) as -> by by eapply nodup_fst_functional.
    f_equal. apply IH; [|done].
    rewrite Forall_forall in Hall. by apply (Hall _ Hin).
Qed.

(** C7 (as the code has it): in a tree whose directories have one entry
    for a name, the path of a node is never returned when that node, or a
    node on the way to it below the root, is a symbolic link. *)
Theorem scan_files_skips_symlinks (top : node) (root_path : Path)
    (include_patterns exclude_patterns : option (list string))
    (exclude_dirs : option (gset string))
    (files : list Path) (rel : list string) (nodes : list node) :
  unique_names top →
  scan_files (Some top) root_path include_patterns exclude_patterns exclude_dirs
    = Ok files →
  resolves top rel nodes →
  Exists (λ m, is_symlink m = true) nodes →
  mkPath (parts root_path ++ rel) ∉ files.
Proof.
  intros Hu [= <-] Hres Hlink Hin.
  unfold sorted_paths in Hin. rewrite merge_sort_Permutation in Hin.
  apply walk_resolves in Hin as (rel' & nodes' & Hparts & Hres' & _ & Hall).
  cbn in Hparts. apply (inj (app _)) in Hparts as <-.
  rewrite (resolves_functional _ _ _ _ Hu Hres Hres') in Hlink.
  apply Exists_exists in Hlink as (m & Hm & Hlink).
  rewrite Forall_forall in Hall. specialize (Hall _ Hm). congruence.
Qed.

Local Ltac in_listing :=
  cbn; repeat first [apply list_elem_of_here | apply list_elem_of_further].
Local Ltac resolve_path :=
  repeat first [apply resolves_nil | apply resolves_cons; [in_listing|]].

Lemma linked_tree_unique : unique_names linked_tree.
Proof.
  repeat first
    [ apply unique_File | apply unique_dangling | apply unique_link
    | apply unique_Dir; [compute_done|]
    | apply List.Forall_cons; cbn [snd] | apply List.Forall_nil ].
Qed.

Lemma scan_files_skips_symlinks_witness :
  scan_files (Some linked_tree) (mkPath ["repo"]) None None None
    = Ok [mkPath ["repo"; "app.py"]; mkPath ["repo"; "src"; "core.py"]]
  ∧ (mkPath ["repo"; "vendor"; "lib.py"]
       ∉ [mkPath ["repo"; "app.py"]; mkPath ["repo"; "src"; "core.py"]])
  ∧ (mkPath ["repo"; "latest.py"]
       ∉ [mkPath ["repo"; "app.py"]; mkPath ["repo"; "src"; "core.py"]]).
Proof.
  split; [reflexivity|]. split.
  - apply (scan_files_skips_symlinks linked_tree (mkPath ["repo"]) None None None
             _ ["vendor"; "lib.py"]
             [Symlink (Some (Dir [("lib.py", File)])); File]).
    + apply linked_tree_unique.
    + reflexivity.
    + resolve_path.
    + by apply Exists_cons_hd.
  - apply (scan_files_skips_symlinks linked_tree (mkPath ["repo"]) None None None
             _ ["latest.py"] [Symlink (Some File)]).
    + apply linked_tree_unique.
    + reflexivity.
    + resolve_path.
    + by apply Exists_cons_hd.
Defined.

(** C7, the claim as written, fails at the root: a root that is itself a
    link to a directory is walked, and the files under it are returned. *)
Lemma scan_files_follows_linked_root :
  let top := Symlink (Some (Dir [("a.py", File)])) in
  is_symlink top = true
  ∧ resolves top ["a.py"] [File]
  ∧ scan_files (Some top) (mkPath ["link"]) None None None
    = Ok [mkPath ["link"; "a.py"]]
  ∧ ¬ (∀ (top : node) (root_path : Path) (files : list Path)
         (rel : list string) (nodes : list node),
         unique_names top →
         scan_files (Some top) root_path None None None = Ok files →
         resolves top rel nodes →
         Exists (λ m, is_symlink m = true) (top :: nodes) →
         mkPath (parts root_path ++ rel) ∉ files).
Proof.
  assert (resolves (Symlink (Some (Dir [("a.py", File)]))) ["a.py"] [File]) as Hres.
  { resolve_path. }
  cbn zeta. split_and!; [done|done|done|].
  intros Hclaim.
  apply (Hclaim (Symlink (Some (Dir [("a.py", File)]))) (mkPath ["link"])
           [mkPath ["link"; "a.py"]] ["a.py"] [File]).
  - apply unique_link, unique_Dir; [compute_done|].
    repeat constructor.
  - reflexivity.
  - exact Hres.
  - by apply Exists_cons_hd.
  - by left.
Qed.

(** ** No path is collected twice *)

Lemma resolves_length (top : node) (rel : list string) (nodes : list node) :
  resolves top rel nodes → length rel = length nodes.
Proof. induction 1; cbn; congruence. Qed.

Lemma walk_parts inc exc exd (top : node) (dirpath p : Path) :
  p ∈ walk inc exc exd dirpath top →
  ∃ d rel, parts p = parts dirpath ++ d :: rel.
Proof.
  intros (rel & nodes & Hparts & Hres & Hne & _)%walk_resolves.
  apply resolves_length in Hres.
  destruct rel as [|d rel]; [by destruct nodes|]. eauto.
Qed.

Lemma walk_entry_parts inc exc exd (dirpath p : Path) (d : string) (n : node) :
  p ∈ walk_entry inc exc exd dirpath (d, n) →
  descends exd (d, n) = true
  ∧ p ∈ walk inc exc exd (dirpath / d)%path n
  ∧ ∃ d' rel, parts p = parts dirpath ++ d :: d' :: rel.
Proof.
  cbn [walk_entry]. destruct (descends exd (d, n)); [|by intros ?%elem_of_nil].
  intros Hin. split_and!; [done..|].
  destruct (walk_parts _ _ _ _ _ _ Hin) as (d' & rel & ->).
  exists d', rel. cbn. by rewrite <-(assoc_L (++)).
Qed.

Lemma joinpath_inj (dirpath : Path) (d1 d2 : string) :
  (dirpath / d1)%path = (dirpath / d2)%path → d1 = d2.
Proof. intros [= H]. by apply (inj (app _)) in H as [= ->]. Qed.

Lemma files_here_nodup inc exc (dirpath : Path) (entries : list (string * node)) :
  NoDup entries.*1 →
  NoDup (filter (λ e, is_dir e.2 = false) entries ≫= file_step inc exc dirpath).
Proof.
  induction entries as [|[d n] entries IH]; [constructor|].
  cbn [fmap list_fmap fst]. intros [Hnotin Hnd]%NoDup_cons.
  rewrite filter_cons. destruct (decide _); [|by apply IH].
  rewrite bind_cons. apply NoDup_app. split_and!; [| |by apply IH].
  - unfold file_step. repeat case_match; first [apply NoDup_nil_2 | apply NoDup_singleton].
  - intros p [-> _]%file_step_elem ([d' n'] & [Hp _]%file_step_elem & He)%list_elem_of_bind.
    apply joinpath_inj in Hp as ->. apply list_elem_of_filter in He as [_ He].
    apply Hnotin, list_elem_of_fmap. by exists (d', n').
Qed.

Lemma walk_nodup inc exc exd (top : node) :
  unique_names top →
  ∀ dirpath, NoDup (walk inc exc exd dirpath top).
Proof.
  induction top as [|entries IH| |target IH] using node_tree_ind;
    intros Hu dirpath; [constructor| |constructor|].
  2: { inversion Hu; subst. by apply IH. }
  inversion Hu as [|? Hnd Hall| |]; subst.
  rewrite walk_Dir. apply NoDup_app. split_and!.
  - rewrite merge_sort_Permutation. by apply files_here_nodup.
  - intros p ([d n] & [-> _]%file_step_elem & He)%list_elem_of_bind
             ([d' n'] & Hp & He')%list_elem_of_bind.
    apply walk_entry_parts in Hp as (_ & _ & d2 & rel & Hparts).
    cbn in Hparts. by apply (inj (app _)) in Hparts.
  - clear Hu. induction entries as [|[d n] entries IHentries]; [constructor|].
    cbn [fmap list_fmap fst] in Hnd. apply NoDup_cons in Hnd as [Hnotin Hnd].
    apply Forall_cons in IH as [IHn IH], Hall as [Hun Hall].
    rewrite bind_cons. apply NoDup_app. split_and!; [| |by apply IHentries].
    + cbn [walk_entry]. destruct (descends exd (d, n)); [|constructor].
      by apply IHn.
    + intros p (_ & _ & d1 & rel1 & Hparts1)%walk_entry_parts
               ([d' n'] & (_ & _ & d2 & rel2 & Hparts2)%walk_entry_parts & He)
                 %list_elem_of_bind.
      rewrite Hparts1 in Hparts2. apply (inj (app _)) in Hparts2 as [= -> _ _].
      apply Hnotin, list_elem_of_fmap. by exists (d', n').
Qed.

Lemma strongly_sorted_strict {A} (R : relation A) (l : list A) :
  StronglySorted R l → NoDup l → StronglySorted (λ x y, R x y ∧ x ≠ y) l.
Proof.
  induction 1 as [|x l Hsorted IH Hall]; intros Hnd; constructor.
  - apply IH. by apply NoDup_cons in Hnd as [_ ?].
  - apply NoDup_cons in Hnd as [Hnotin _].
    rewrite Forall_forall in *. intros y Hy. split; [by apply Hall|].
    by intros ->.
Qed.

(** ** Independence of the listing order *)

Lemma file_step_same inc exc (dirpath : Path) (d : string) (n n' : node) :
  is_symlink n = is_symlink n' →
  file_step inc exc dirpath (d, n) = file_step inc exc dirpath (d, n').
Proof. unfold file_step. by intros ->. Qed.

Lemma descends_same exd (d : string) (n n' : node) :
  is_dir n = is_dir n' → is_symlink n = is_symlink n' →
  descends exd (d, n) = descends exd (d, n').
Proof. unfold descends. by intros -> ->. Qed.

(** What the walk reads of a tree does not depend on the order in which
    its directories list their entries, up to the order of collection. *)
Lemma walk_same_tree inc exc exd :
  (∀ n n', same_tree n n' →
     is_dir n = is_dir n' ∧ is_symlink n = is_symlink n'
     ∧ ∀ dirpath, walk inc exc exd dirpath n ≡ₚ walk inc exc exd dirpath n')
  ∧ (∀ es es', same_listing es es' →
       ∀ dirpath,
         (filter (λ e, is_dir e.2 = false) es ≫= file_step inc exc dirpath)
           ≡ₚ (filter (λ e, is_dir e.2 = false) es' ≫= file_step inc exc dirpath)
         ∧ (es ≫= walk_entry inc exc exd dirpath)
             ≡ₚ (es' ≫= walk_entry inc exc exd dirpath)).
Proof.
  apply same_tree_listing_ind.
  - done.
  - intros es es' _ IH. split_and!; [done..|]. intros dirpath.
    destruct (IH dirpath) as [Hfiles Hdirs].
    rewrite !walk_Dir. apply Permutation_app; [|done].
    by rewrite !merge_sort_Permutation.
  - done.
  - intros t t' _ (Hdir & _ & Hwalk). done.
  - done.
  - intros d n n' es es' _ (Hdir & Hlink & Hwalk) _ IH dirpath.
    destruct (IH dirpath) as [Hfiles Hdirs]. split.
    + rewrite !filter_cons. cbn [snd]. rewrite <-Hdir.
      destruct (decide (is_dir n = false)); [|done].
      rewrite !bind_cons, (file_step_same _ _ _ _ n n') by done.
      by apply Permutation_app.
    + rewrite !bind_cons. apply Permutation_app; [|done].
      cbn [walk_entry]. rewrite (descends_same _ _ n n') by done.
      by destruct (descends exd (d, n')).
  - intros e1 e2 es dirpath. split.
    + apply bind_Permutation, filter_Permutation, Permutation_swap.
    + apply bind_Permutation, Permutation_swap.
  - intros es1 es2 es3 _ IH12 _ IH23 dirpath.
    destruct (IH12 dirpath), (IH23 dirpath). split; by etrans.
Qed.

Lemma scan_files_same_tree (fs fs' : option node) (root_path : Path)
    (include_patterns exclude_patterns : option (list string))
    (exclude_dirs : option (gset string)) :
  option_Forall2 same_tree fs fs' →
  scan_files fs root_path include_patterns exclude_patterns exclude_dirs
  = scan_files fs' root_path include_patterns exclude_patterns exclude_dirs.
Proof.
  intros [top top' Hsame|]; [|done].
  unfold scan_files. cbn [mret result_ret]. f_equal.
  apply sorted_paths_proper.
  by apply (proj1 (walk_same_tree _ _ _)).
Qed.

(** C3 (as the code has it): the list returned by the scanner is the
    collected list sorted, after the walk, by the order of paths, which
    compares the sequences of path components; that order is a total
    order, so two file systems that hold the same tree and enumerate it
    in different orders give the same list, and the list is strictly
    ascending when no directory has two entries of one name. *)
Theorem scan_files_sorted (fs fs' : option node) (root_path : Path)
    (include_patterns exclude_patterns : option (list string))
    (exclude_dirs : option (gset string)) :
  option_Forall2 same_tree fs fs' →
  ∃ files,
    scan_files fs root_path include_patterns exclude_patterns exclude_dirs
      = Ok files
    ∧ scan_files fs' root_path include_patterns exclude_patterns exclude_dirs
      = Ok files
    ∧ files = sorted_paths
                (from_option
                   (walk (default [] include_patterns)
                      (default [] exclude_patterns) (default ∅ exclude_dirs)
                      root_path) [] fs)
    ∧ StronglySorted PurePath.le files
    ∧ PartialOrder PurePath.le ∧ Total PurePath.le
    ∧ (from_option unique_names True fs →
       StronglySorted (λ p q, PurePath.le p q ∧ p ≠ q) files).
Proof.
  intros Hsame.
  rewrite <-(scan_files_same_tree fs fs') by done.
  unfold scan_files. cbn [mret result_ret]. eexists.
  assert (∀ l, StronglySorted PurePath.le (sorted_paths l)) as Hsorted.
  { intros l. apply Sorted_StronglySorted; [apply _ | apply sorted_paths_sorted]. }
  split_and!; try done; try apply _.
  intros Hu. apply strongly_sorted_strict; [done|].
  unfold sorted_paths. rewrite merge_sort_Permutation.
  destruct fs as [top|]; [by apply walk_nodup | constructor].
Qed.

(** ** The report generator *)

Lemma summarise_ok (root_path file_path : Path) :
  ∃ entry, summarise root_path file_path = Ok entry.
Proof.
  unfold summarise.
  destruct (heuristic_summary_returns file_path root_path) as [summary ->].
  destruct (PurePath.relative_to file_path root_path) as [rel|e] eqn:Hrel.
  - eexists. reflexivity.
  - destruct (relative_to_raises _ _ _ Hrel) as [msg ->]. eexists. reflexivity.
Qed.

Lemma for_each_summarise_ok (root_path : Path) (files : list Path) :
  ∃ summaries,
    for_each (summarise root_path) files = Ok summaries
    ∧ length summaries = length files.
Proof.
  induction files as [|p files (summaries & IH & Hlen)].
  - by exists [].
  - destruct (summarise_ok root_path p) as [entry Hentry].
    exists (entry :: summaries). cbn. rewrite Hentry. cbn. rewrite IH. cbn.
    by rewrite Hlen.
Qed.

Lemma scan_files_ok (fs : option node) (root_path : Path)
    (include_patterns exclude_patterns : option (list string))
    (exclude_dirs : option (gset string)) :
  ∃ files,
    scan_files fs root_path include_patterns exclude_patterns exclude_dirs
    = Ok files.
Proof. eexists. reflexivity. Qed.

(** The whole run, case by case. *)
Lemma generate_file_summaries_run (fs : option node) (root_path output_dir : Path)
    (include_patterns : option (list string))
    (exclude_dirs : option (gset string)) (dry_run : bool) (w : world) :
  ∃ files summaries,
    scan_files fs root_path include_patterns None exclude_dirs = Ok files
    ∧ for_each (summarise root_path) files = Ok summaries
    ∧ length summaries = length files
    ∧ generate_file_summaries fs root_path output_dir include_patterns
        exclude_dirs dry_run w
      = report_outcome output_dir dry_run files summaries w.
Proof.
  destruct (scan_files_ok fs root_path include_patterns None exclude_dirs)
    as [files Hscan].
  destruct (for_each_summarise_ok root_path files) as (summaries & Hsum & Hlen).
  exists files, summaries. split_and!; [done..|].
  unfold generate_file_summaries, try_except_Exception, report_outcome.
  unfold mbind at 1. unfold IO_bind at 1. unfold lift at 1. rewrite Hscan.
  destruct files as [|p files]; cbn [nonempty negb].
  - by destruct dry_run.
  - unfold mbind at 1. unfold IO_bind at 1. unfold lift at 1. rewrite Hsum.
    destruct dry_run.
    + unfold mbind, IO_bind, print. cbn [disk unwritable stdout write_fails].
      by rewrite <-!(assoc_L (++)).
    + unfold mbind, IO_bind, print, open_w, write, lift.
      cbn [disk unwritable stdout write_fails].
      destruct (unwritable w !! PurePath.str (output_dir / "file-summaries.md")%path)
        as [msg|]; [reflexivity|].
      cbn [disk unwritable stdout write_fails].
      destruct (write_fails w !! PurePath.str (output_dir / "file-summaries.md")%path)
        as [[partial e]|]; cbn [disk unwritable stdout write_fails].
      { by rewrite insert_insert_eq. }
      destruct (unwritable w !! PurePath.str (output_dir / "file-summaries.json")%path)
        as [msg|]; cbn [disk unwritable stdout write_fails exn_str].
      { by rewrite insert_insert_eq. }
      destruct (write_fails w !! PurePath.str (output_dir / "file-summaries.json")%path)
        as [[partial e]|]; cbn [disk unwritable stdout write_fails].
      * by rewrite !insert_insert_eq.
      * by rewrite !insert_insert_eq, <-!(assoc_L (++)).
Qed.





(** ** File-exclude patterns *)

Lemma file_step_no_exclude inc exc (dirpath p : Path) (entry : string * node) :
  p ∈ file_step inc exc dirpath entry → p ∈ file_step inc [] dirpath entry.
Proof.
  destruct entry as [filename n]. unfold file_step. cbn [nonempty andb].
  intros Hin. repeat case_match; try done. by apply elem_of_nil in Hin.
Qed.

Lemma walk_no_exclude inc exc exd (top : node) :
  ∀ (dirpath p : Path),
    p ∈ walk inc exc exd dirpath top → p ∈ walk inc [] exd dirpath top.
Proof.
  induction top as [|entries IH| |target IH] using node_tree_ind;
    intros dirpath p Hin; [done| |done|by apply IH].
  rewrite walk_Dir in *. apply elem_of_app in Hin as [Hin | Hin]; apply elem_of_app.
  - left. apply list_elem_of_bind in Hin as (e & Hp & He).
    apply list_elem_of_bind. exists e. split; [|done].
    by eapply file_step_no_exclude.
  - right. apply list_elem_of_bind in Hin as ([d n] & Hp & He).
    apply list_elem_of_bind. exists (d, n). split; [|done].
    cbn [walk_entry] in *. destruct (descends exd (d, n)); [|done].
    rewrite Forall_forall in IH. by apply (IH _ He).
Qed.

Lemma scan_files_no_exclude (fs : option node) (root_path : Path)
    (include_patterns : option (list string)) (exclude_patterns : list string)
    (exclude_dirs : option (gset string)) (files files' : list Path) :
  scan_files fs root_path include_patterns None exclude_dirs = Ok files →
  scan_files fs root_path include_patterns (Some exclude_patterns) exclude_dirs
    = Ok files' →
  files' ⊆ files.
Proof.
  intros [= <-] [= <-] p. unfold sorted_paths.
  rewrite !merge_sort_Permutation. destruct fs as [top|]; [|done].
  apply walk_no_exclude.
Qed.

(** C8: the report generator calls the scanner with the include patterns
    and the excluded directory names and with no file-exclude patterns:
    the files it reports are those of a scan with an empty exclude list,
    and a scan with any exclude list returns no file that the report
    lacks. *)
Theorem report_has_no_exclude_patterns (fs : option node)
    (root_path output_dir : Path)
    (include_patterns : option (list string))
    (exclude_dirs : option (gset string)) (dry_run : bool) (w : world) :
  ∃ files summaries,
    scan_files fs root_path include_patterns None exclude_dirs = Ok files
    ∧ scan_files fs root_path include_patterns (Some []) exclude_dirs = Ok files
    ∧ for_each (summarise root_path) files = Ok summaries
    ∧ generate_file_summaries fs root_path output_dir include_patterns
        exclude_dirs dry_run w
      = report_outcome output_dir dry_run files summaries w
    ∧ ∀ exclude_patterns, ∃ files',
        scan_files fs root_path include_patterns (Some exclude_patterns)
          exclude_dirs = Ok files'
        ∧ files' ⊆ files.
Proof.
  destruct (generate_file_summaries_run fs root_path output_dir
              include_patterns exclude_dirs dry_run w)
    as (files & summaries & Hscan & Hsum & Hlen & Hrun).
  exists files, summaries. split_and!; [done..|].
  intros exclude_patterns.
  destruct (scan_files_ok fs root_path include_patterns (Some exclude_patterns)
              exclude_dirs) as [files' Hscan'].
  exists files'. split; [done|]. by eapply scan_files_no_exclude.
Qed.

(** The scanner itself does honour file-exclude patterns. *)
Example scan_files_excludes :
  scan_files (Some (Dir [("a.py", File); ("a_test.py", File)]))
    (mkPath ["repo"]) (Some ["*.py"]) (Some ["*_test.py"]) None
  = Ok [mkPath ["repo"; "a.py"]].
Proof. reflexivity. Qed.

(** ** Examples for the order of the scan *)

Lemma listing_one_two : same_tree listing_one listing_two.
Proof.
  apply same_Dir.
  eapply same_trans; [apply same_swap|].
  apply same_skip; [|apply same_skip; [apply same_File | apply same_nil]].
  apply same_Dir, same_swap.
Qed.

Lemma scan_files_sorted_witness :
  ∃ files,
    scan_files (Some listing_one) (mkPath ["repo"]) None None None = Ok files
    ∧ scan_files (Some listing_two) (mkPath ["repo"]) None None None = Ok files
    ∧ files = sorted_paths (walk [] [] ∅ (mkPath ["repo"]) listing_one)
    ∧ StronglySorted PurePath.le files
    ∧ PartialOrder PurePath.le ∧ Total PurePath.le
    ∧ (from_option unique_names True (Some listing_one) →
       StronglySorted (λ p q, PurePath.le p q ∧ p ≠ q) files).
Proof.
  apply (scan_files_sorted (Some listing_one) (Some listing_two)).
  constructor. apply listing_one_two.
Defined.

Example listing_one_two_scan :
  scan_files (Some listing_one) (mkPath ["repo"]) None None None
    = Ok [mkPath ["repo"; "a"; "w.py"]; mkPath ["repo"; "a"; "x.py"];
          mkPath ["repo"; "b.py"]]
  ∧ scan_files (Some listing_two) (mkPath ["repo"]) None None None
    = Ok [mkPath ["repo"; "a"; "w.py"]; mkPath ["repo"; "a"; "x.py"];
          mkPath ["repo"; "b.py"]].
Proof. split; reflexivity. Qed.

(** C3, the claim as written, fails: the result is not in the order of
    the full path strings. Under [a] and [a-b] the scan returns
    [repo/a/x.py] before [repo/a-b/y.py], while as strings the second is
    the smaller one, a hyphen coming before a slash. *)
Lemma scan_files_not_in_string_order :
  let top := Dir [("a", Dir [("x.py", File)]); ("a-b", Dir [("y.py", File)])] in
  scan_files (Some top) (mkPath ["repo"]) None None None
    = Ok [mkPath ["repo"; "a"; "x.py"]; mkPath ["repo"; "a-b"; "y.py"]]
  ∧ PurePath.str (mkPath ["repo"; "a"; "x.py"]) = "repo/a/x.py"
  ∧ PurePath.str (mkPath ["repo"; "a-b"; "y.py"]) = "repo/a-b/y.py"
  ∧ ¬ str_le (mkPath ["repo"; "a"; "x.py"]) (mkPath ["repo"; "a-b"; "y.py"])
  ∧ ¬ (∀ (fs : option node) (root_path : Path) (files : list Path),
         scan_files fs root_path None None None = Ok files →
         Sorted str_le files).
Proof.
  assert (¬ str_le (mkPath ["repo"; "a"; "x.py"]) (mkPath ["repo"; "a-b"; "y.py"]))
    as Hnot by (vm_compute; tauto).
  cbn zeta. split_and!; [done..|].
  intros Hclaim.
  specialize (Hclaim
    (Some (Dir [("a", Dir [("x.py", File)]); ("a-b", Dir [("y.py", File)])]))
    (mkPath ["repo"]) _ eq_refl).
  apply Sorted_inv in Hclaim as [_ Hhd]. by inversion Hhd.
Qed.

(* ================================================================= *)
(** * Further properties of the code *)

(** ** More on [_matches_pattern] *)

Lemma pattern_hit_self (filename : string) : pattern_hit filename filename = true.
Proof.
  unfold pattern_hit.
  destruct (PyStr.startswith filename "*") eqn:Hs.
  - apply endswith_spec. exists "*". by apply drop_first_star.
  - destruct (PyStr.endswith filename "*") eqn:He.
    + apply startswith_spec. exists "*". by apply drop_last_star.
    + by apply bool_decide_eq_true.
Qed.

(** X1: a pattern list matches when one of its two halves does, so the
    order in which the patterns are given makes no difference. *)
Theorem matches_pattern_app (filename : string) (ps qs : list string) :
  _matches_pattern filename (ps ++ qs)
    = _matches_pattern filename ps || _matches_pattern filename qs
  ∧ _matches_pattern filename (ps ++ qs) = _matches_pattern filename (qs ++ ps).
Proof.
  assert (∀ l1 l2, _matches_pattern filename (l1 ++ l2)
                   = _matches_pattern filename l1 || _matches_pattern filename l2)
    as Happ.
  { intros l1 l2. induction l1 as [|p l1 IH]; [done|].
    cbn. by destruct (pattern_hit filename p). }
  split; [apply Happ|]. rewrite !Happ. apply orb_comm.
Qed.

(** X2: a file name, taken as a pattern, matches itself, whatever stars
    it has; and the lone star matches every file name. *)
Theorem matches_pattern_self (filename : string) (ps qs : list string) :
  _matches_pattern filename (ps ++ filename :: qs) = true
  ∧ _matches_pattern filename (ps ++ "*" :: qs) = true.
Proof.
  assert (∀ p, pattern_hit filename p = true →
               _matches_pattern filename (ps ++ p :: qs) = true) as Hhit.
  { intros p Hp. induction ps as [|q ps IH]; cbn.
    - by rewrite Hp.
    - by destruct (pattern_hit filename q). }
  split; apply Hhit; [apply pattern_hit_self|].
  apply pattern_hit_spec. left. exists "". split; [done|].
  exists filename. by rewrite app_nil_r_s.
Qed.

(** X3: a star after the first character of a pattern is not a wild
    card. A pattern that starts with a star and has another one further on
    matches no file name without a star in it: [*test*] does not match
    [my_test_file.py]. *)
Theorem matches_pattern_second_star (filename rest : string) :
  PyStr.contains rest "*" = true →
  PyStr.contains filename "*" = false →
  _matches_pattern filename ["*" +:+ rest] = false.
Proof.
  intros (a & b & ->)%contains_spec Hfile.
  cbn [_matches_pattern].
  destruct (pattern_hit filename ("*" +:+ a +:+ "*" +:+ b)) eqn:Hm; [|done].
  apply pattern_hit_spec in Hm as [(r & Hr & pre & ->) | [[Hn _] | [Hn _]]].
  - apply (inj (String.app _)) in Hr as <-.
    rewrite <-Hfile. symmetry. apply contains_spec. exists (pre +:+ a), b.
    by rewrite !app_assoc_s.
  - by destruct (Hn (a +:+ "*" +:+ b)).
  - by destruct (Hn (a +:+ "*" +:+ b)).
Qed.

Lemma matches_pattern_second_star_witness :
  _matches_pattern "my_test_file.py" ["*" +:+ "test*"] = false.
Proof.
  apply (matches_pattern_second_star "my_test_file.py" "test*"); reflexivity.
Defined.

(** ** More on [_get_language] *)

Lemma rfind_no_dot (s : string) :
  PyStr.contains s "." = false → PyStr.rfind s "." = None.
Proof.
  induction s as [|a s IH]; [done|].
  cbn [PyStr.contains PyStr.rfind PyStr.startswith].
  intros [Ha Hs]%orb_false_iff. rewrite (IH Hs).
  destruct s; cbn in Ha; rewrite andb_true_r in Ha; by rewrite Ha.
Qed.

Lemma rfind_trailing_dot (s : string) :
  PyStr.rfind (s +:+ ".") "." = Some (String.length s).
Proof.
  induction s as [|a s IH]; [done|].
  rewrite app_cons_s. cbn [PyStr.rfind String.length]. by rewrite IH.
Qed.

Lemma length_app_s (s t : string) :
  String.length (s +:+ t) = (String.length s + String.length t)%nat.
Proof.
  induction s as [|a s IH]; [done|].
  rewrite app_cons_s. cbn [String.length]. by rewrite IH.
Qed.

(** The name of a path that was extended by one component is that
    component, or nothing when the component is read as an anchor. *)
Lemma name_joinpath (dir : Path) (n : string) :
  PurePath.name (dir / n)%path = n ∨ PurePath.name (dir / n)%path = "".
Proof.
  unfold PurePath.name. case_match; [by right|]. left.
  cbn [PurePath.joinpath parts]. apply last_last.
Qed.

Lemma language_of_name (p : Path) :
  (PurePath.name p = ""
   ∨ PyStr.rfind (PurePath.name p) "." = None
   ∨ PyStr.rfind (PurePath.name p) "." = Some 0
   ∨ PyStr.rfind (PurePath.name p) "."
     = Some (String.length (PurePath.name p) - 1)) →
  _get_language p = "Unknown".
Proof.
  unfold _get_language, PurePath.suffix.
  intros [-> | [-> | [-> | ->]]]; [done..|].
  by rewrite Nat.ltb_irrefl, andb_false_r.
Qed.

(** X4: a file whose name has no dot, a dot file (one dot, in front) and
    a name that ends in a dot have no extension for the code: their
    language is [Unknown]. A file called [.py] is not a Python file. *)
Theorem get_language_no_extension (dir : Path) (s : string) :
  PyStr.contains s "." = false →
  _get_language (dir / s)%path = "Unknown"
  ∧ _get_language (dir / ("." +:+ s))%path = "Unknown"
  ∧ ∀ t, _get_language (dir / (t +:+ "."))%path = "Unknown".
Proof.
  intros Hs%rfind_no_dot. split_and!.
  - apply language_of_name.
    destruct (name_joinpath dir s) as [-> | ->]; auto.
  - apply language_of_name.
    destruct (name_joinpath dir ("." +:+ s)) as [-> | ->]; [|auto].
    right; right; left.
    change ("." +:+ s) with (String "." s). cbn [PyStr.rfind]. by rewrite Hs.
  - intros t. apply language_of_name.
    destruct (name_joinpath dir (t +:+ ".")) as [-> | ->]; [|auto].
    right; right; right.
    rewrite rfind_trailing_dot, length_app_s. cbn [String.length]. f_equal. lia.
Qed.

Lemma get_language_no_extension_witness :
  PyStr.contains "py" "." = false
  ∧ _get_language (mkPath ["repo"; ".py"]) = "Unknown".
Proof.
  split; [reflexivity|].
  apply (get_language_no_extension (mkPath ["repo"]) "py"). reflexivity.
Defined.

(** X5: the label is never the empty string, and it is [Unknown] only
    when the lower-cased extension is not a key of the table: no entry of
    the table has [Unknown] as its label. *)
Theorem get_language_label (file_path : Path) :
  _get_language file_path ≠ ""
  ∧ (_get_language file_path = "Unknown"
     ↔ LANGUAGE_MAP !! PyStr.lower (PurePath.suffix file_path) = None).
Proof.
  unfold _get_language.
  destruct (LANGUAGE_MAP !! PyStr.lower (PurePath.suffix file_path))
    as [label|] eqn:Hlookup; cbn [default]; [|done].
  unfold LANGUAGE_MAP in Hlookup. apply elem_of_list_to_map_2 in Hlookup.
  match type of Hlookup with
  | _ ∈ ?table =>
      assert (Forall (λ kv : string * string, kv.2 ≠ "" ∧ kv.2 ≠ "Unknown") table)
        as Hall by (repeat (constructor; [by split|]); constructor)
  end.
  rewrite Forall_forall in Hall. destruct (Hall _ Hlookup) as [Hne Hnu].
  split; [done|]. split; [done|discriminate].
Qed.

(** ** More on the rule chain *)

(** X6: a stem that has the shape of a test name (it starts with [test]
    or ends with [_test], case aside) gets the test-file summary wherever
    the file lies and whatever its extension is: only the three
    configuration names come before this rule, and none of them has that
    shape. *)
Theorem test_name_is_test_file (file_path root_path : Path) :
  let name_lower := PyStr.lower (PurePath.stem file_path) in
  PyStr.startswith name_lower "test_" || PyStr.endswith name_lower "_test"
    || PyStr.startswith name_lower "test" = true →
  _generate_heuristic_summary file_path root_path
    = Ok (_get_language file_path +:+ " test file").
Proof.
  intros name_lower Htest. unfold _generate_heuristic_summary.
  destruct (relative_dir_parts_ok file_path root_path) as [path_parts ->].
  cbn [mbind result_bind]. fold name_lower.
  destruct (str_in name_lower ["config"; "configuration"; "settings"]) eqn:Hcfg.
  - apply bool_decide_eq_true in Hcfg.
    rewrite !elem_of_cons, elem_of_nil in Hcfg.
    destruct Hcfg as [Hn | [Hn | [Hn | []]]]; rewrite Hn in Htest; discriminate Htest.
  - by rewrite Htest.
Qed.

Lemma test_name_is_test_file_witness :
  _generate_heuristic_summary
    (mkPath ["repo"; "src"; "db"; "TestRouter.tsx"]) (mkPath ["repo"])
  = Ok "TypeScript test file".
Proof.
  apply (test_name_is_test_file
           (mkPath ["repo"; "src"; "db"; "TestRouter.tsx"]) (mkPath ["repo"])).
  reflexivity.
Defined.

(** X7: for a stem [__init__] or [mod] (case aside) on a file that is not
    a JSX, TSX or Vue file, the answer is the module-initialisation
    summary, in its test phrasing exactly when one of the directories
    between the root and the file is called [tests] or [test], in lower
    case and at any depth. *)
Theorem init_is_module_initialization (file_path root_path : Path) :
  PyStr.lower (PurePath.stem file_path) = "__init__"
    ∨ PyStr.lower (PurePath.stem file_path) = "mod" →
  str_in (PyStr.lower (PurePath.suffix file_path)) [".jsx"; ".tsx"; ".vue"] = false →
  ∃ path_parts,
    relative_dir_parts file_path root_path = Ok path_parts
    ∧ _generate_heuristic_summary file_path root_path
      = Ok (_get_language file_path +:+
              (if bool_decide ("tests" ∈ path_parts ∨ "test" ∈ path_parts)
               then " test module initialization"
               else " module initialization")).
Proof.
  intros Hname Hext.
  destruct (relative_dir_parts_ok file_path root_path) as [path_parts Hparts].
  exists path_parts. split; [done|].
  unfold _generate_heuristic_summary. rewrite Hparts. cbn [mbind result_bind].
  assert (str_in "tests" path_parts || str_in "test" path_parts
          = bool_decide ("tests" ∈ path_parts ∨ "test" ∈ path_parts)) as Hin.
  { unfold str_in. apply eq_true_iff_eq.
    rewrite orb_true_iff, !bool_decide_eq_true. done. }
  destruct Hname as [-> | ->]; rewrite Hext; cbn -[str_in String.app];
    rewrite Hin; by case_bool_decide.
Qed.

Lemma init_is_module_initialization_witness :
  _generate_heuristic_summary
    (mkPath ["repo"; "pkg"; "tests"; "unit"; "__init__.py"]) (mkPath ["repo"])
  = Ok "Python test module initialization"
  ∧ _generate_heuristic_summary
      (mkPath ["repo"; "Tests"; "__init__.py"]) (mkPath ["repo"])
    = Ok "Python module initialization".
Proof.
  split.
  - destruct (init_is_module_initialization
                (mkPath ["repo"; "pkg"; "tests"; "unit"; "__init__.py"])
                (mkPath ["repo"])) as (path_parts & Hparts & ->);
      [by left | reflexivity |].
    injection Hparts as <-. reflexivity.
  - destruct (init_is_module_initialization
                (mkPath ["repo"; "Tests"; "__init__.py"])
                (mkPath ["repo"])) as (path_parts & Hparts & ->);
      [by left | reflexivity |].
    injection Hparts as <-. reflexivity.
Defined.

(** ** What the scanner returns *)

Lemma walk_entries_of inc exc exd (dirpath : Path) (top : node) :
  walk inc exc exd dirpath top
  = walk inc exc exd dirpath (Dir (entries_of top)).
Proof.
  induction top as [|entries _| |target IH] using node_tree_ind; [done..|].
  cbn [walk entries_of]. exact IH.
Qed.

Lemma plain_file (n : node) :
  is_dir n = false → is_symlink n = false → n = File.
Proof. by destruct n. Qed.

Lemma plain_dir (n : node) :
  is_dir n = true → is_symlink n = false → ∃ entries, n = Dir entries.
Proof. destruct n; try done. eauto. Qed.

Lemma file_step_iff inc exc (dirpath p : Path) (filename : string) (n : node) :
  p ∈ file_step inc exc dirpath (filename, n) ↔
  p = (dirpath / filename)%path
  ∧ is_symlink n = false
  ∧ (nonempty inc = false ∨ _matches_pattern filename inc = true)
  ∧ (nonempty exc = false ∨ _matches_pattern filename exc = false).
Proof.
  unfold file_step.
  destruct (is_symlink n), (nonempty inc), (nonempty exc),
    (_matches_pattern filename inc), (_matches_pattern filename exc);
    cbn; rewrite ?elem_of_nil, ?list_elem_of_singleton; intuition congruence.
Qed.

Lemma descends_iff exd (d : string) (n : node) :
  descends exd (d, n) = true ↔ (d ∉ exd) ∧ ∃ entries, n = Dir entries.
Proof.
  unfold descends. rewrite !andb_true_iff, !negb_true_iff, bool_decide_eq_true.
  split.
  - intros [[[Hdir Hd] Hl] _]. split; [done|]. by apply plain_dir.
  - intros [Hd [entries ->]]. done.
Qed.

(** Every collected path is a picked one ... *)
Lemma walk_picked inc exc exd (top : node) :
  ∀ (dirpath p : Path),
    p ∈ walk inc exc exd dirpath top →
    ∃ rel, parts p = parts dirpath ++ rel ∧ picked inc exc exd top rel.
Proof.
  induction top as [|entries IH| |target IH] using node_tree_ind;
    intros dirpath p Hin.
  - by apply elem_of_nil in Hin.
  - rewrite walk_Dir in Hin. apply elem_of_app in Hin as [Hin | Hin].
    + apply list_elem_of_bind in Hin as ([d n] & Hp & He).
      rewrite merge_sort_Permutation in He.
      apply list_elem_of_filter in He as [Hnd He]. cbn [snd] in Hnd.
      apply file_step_iff in Hp as (-> & Hl & Hinc & Hexc).
      rewrite (plain_file n Hnd Hl) in He.
      exists [d]. split; [done|]. by apply picked_file.
    + apply list_elem_of_bind in Hin as ([d n] & Hp & He).
      cbn [walk_entry] in Hp.
      destruct (descends exd (d, n)) eqn:Hd; [|by apply elem_of_nil in Hp].
      apply descends_iff in Hd as [Hd [sub ->]].
      rewrite Forall_forall in IH.
      destruct (IH _ He _ _ Hp) as (rel & Hparts & Hpicked).
      exists (d :: rel). split.
      * rewrite Hparts. cbn. by rewrite <-(assoc_L (++)).
      * by eapply picked_dir.
  - by apply elem_of_nil in Hin.
  - destruct (IH _ _ Hin) as (rel & Hparts & Hpicked).
    exists rel. split; [done|].
    destruct Hpicked; [by apply picked_file | by eapply picked_dir].
Qed.

(** ... and every picked path is collected. *)
Lemma picked_walk inc exc exd (top : node) (rel : list string) :
  picked inc exc exd top rel →
  ∀ dirpath, mkPath (parts dirpath ++ rel) ∈ walk inc exc exd dirpath top.
Proof.
  induction 1 as [top filename Hin Hinc Hexc|top d entries rel Hin Hd _ IH];
    intros dirpath; rewrite walk_entries_of, walk_Dir; apply elem_of_app.
  - left. apply list_elem_of_bind. exists (filename, File). split.
    + by apply file_step_iff.
    + rewrite merge_sort_Permutation. by apply list_elem_of_filter.
  - right. apply list_elem_of_bind. exists (d, Dir entries). split; [|done].
    cbn [walk_entry].
    rewrite (proj2 (descends_iff exd d (Dir entries))) by eauto.
    specialize (IH (dirpath / d)%path). cbn in IH.
    by rewrite <-(assoc_L (++)) in IH.
Qed.

(** X8: the scanner returns exactly the paths made of the root and the
    names that lead, through directories that are neither links nor
    excluded by name, to a regular file whose name matches the include
    patterns (when there are any) and no exclude pattern. *)
Theorem scan_files_selects (fs : option node) (root_path : Path)
    (include_patterns exclude_patterns : option (list string))
    (exclude_dirs : option (gset string)) (files : list Path) (p : Path) :
  scan_files fs root_path include_patterns exclude_patterns exclude_dirs
    = Ok files →
  p ∈ files ↔
  ∃ top rel,
    fs = Some top
    ∧ parts p = parts root_path ++ rel
    ∧ picked (default [] include_patterns) (default [] exclude_patterns)
        (default ∅ exclude_dirs) top rel.
Proof.
  intros [= <-]. unfold sorted_paths. rewrite merge_sort_Permutation.
  destruct fs as [top|].
  - split.
    + intros (rel & Hparts & Hpicked)%walk_picked. by exists top, rel.
    + intros (top' & rel & [= <-] & Hparts & Hpicked).
      destruct p as [l]. cbn in Hparts. subst l. by apply picked_walk.
  - split; [by intros ?%elem_of_nil|]. by intros (? & ? & [=] & _).
Qed.

Lemma scan_files_selects_witness :
  mkPath ["repo"; "src"; "core.py"]
    ∈ [mkPath ["repo"; "app.py"]; mkPath ["repo"; "src"; "core.py"]]
  ↔ ∃ top rel,
      Some linked_tree = Some top
      ∧ parts (mkPath ["repo"; "src"; "core.py"]) = parts (mkPath ["repo"]) ++ rel
      ∧ picked [] [] ∅ top rel.
Proof.
  apply (scan_files_selects (Some linked_tree) (mkPath ["repo"]) None None None).
  reflexivity.
Defined.

Lemma picked_dirs_allowed inc exc exd (top : node) (rel : list string) :
  picked inc exc exd top rel →
  ∀ dirs d rest, rel = dirs ++ d :: rest → rest ≠ [] → d ∉ exd.
Proof.
  induction 1 as [top filename _ _ _|top d0 entries rel _ Hd _ IH];
    intros dirs d rest Hrel Hrest.
  - destruct dirs as [|? [|]]; simplify_eq/=.
  - destruct dirs as [|d1 dirs]; simplify_eq/=; [done|]. by eapply IH.
Qed.

(** X9: no returned path goes through a directory whose name is in
    [exclude_dirs], at any depth below the root and whatever the include
    patterns say. The names are those of directories on the way: the
    last component, the file's own name, is not looked up in the set. *)
Theorem scan_files_prunes_excluded (fs : option node) (root_path : Path)
    (include_patterns exclude_patterns : option (list string))
    (exclude_dirs : gset string) (files : list Path)
    (dirs : list string) (d : string) (rest : list string) :
  scan_files fs root_path include_patterns exclude_patterns (Some exclude_dirs)
    = Ok files →
  d ∈ exclude_dirs →
  rest ≠ [] →
  mkPath (parts root_path ++ dirs ++ d :: rest) ∉ files.
Proof.
  intros [= <-] Hd Hrest Hin.
  unfold sorted_paths in Hin. rewrite merge_sort_Permutation in Hin.
  destruct fs as [top|]; [|by apply elem_of_nil in Hin].
  apply walk_picked in Hin as (rel & Hparts & Hpicked).
  cbn in Hparts. apply (inj (app _)) in Hparts as <-.
  by eapply (picked_dirs_allowed _ _ _ _ _ Hpicked dirs d rest).
Qed.

Lemma scan_files_prunes_excluded_witness :
  scan_files
    (Some (Dir [("build", File);
                ("src", Dir [("build", Dir [("deep", Dir [("gen.py", File)])]);
                             ("app.py", File)])]))
    (mkPath ["repo"]) (Some ["*.py"; "build"]) None (Some {["build"]})
  = Ok [mkPath ["repo"; "build"]; mkPath ["repo"; "src"; "app.py"]]
  ∧ (mkPath ["repo"; "src"; "build"; "deep"; "gen.py"]
       ∉ [mkPath ["repo"; "build"]; mkPath ["repo"; "src"; "app.py"]]).
Proof.
  split; [reflexivity|].
  apply (scan_files_prunes_excluded
           (Some (Dir [("build", File);
                       ("src", Dir [("build", Dir [("deep", Dir [("gen.py", File)])]);
                                    ("app.py", File)])]))
           (mkPath ["repo"]) (Some ["*.py"; "build"]) None {["build"]} _
           ["src"] "build" ["deep"; "gen.py"]).
  - reflexivity.
  - by apply elem_of_singleton.
  - discriminate.
Defined.

Lemma picked_weaken inc exc (exd exd' : gset string) (top : node) (rel : list string) :
  exd ⊆ exd' → picked inc exc exd' top rel → picked [] [] exd top rel.
Proof.
  intros Hsub. induction 1 as [top filename Hin _ _|top d entries rel Hin Hd _ IH].
  - apply picked_file; [done|by left..].
  - eapply picked_dir; [done| |done]. set_solver.
Qed.

(** X10: filters only take files away. A scan with any include and
    exclude patterns, and with a larger set of excluded directory names,
    returns no file that the scan without patterns and with the smaller
    set lacks; an empty or missing include list stands for all files. *)
Theorem scan_files_filters_remove (fs : option node) (root_path : Path)
    (include_patterns exclude_patterns : option (list string))
    (exclude_dirs exclude_dirs' : option (gset string))
    (files files' : list Path) :
  default ∅ exclude_dirs ⊆ default ∅ exclude_dirs' →
  scan_files fs root_path None None exclude_dirs = Ok files →
  scan_files fs root_path include_patterns exclude_patterns exclude_dirs'
    = Ok files' →
  files' ⊆ files.
Proof.
  intros Hsub [= <-] [= <-] p. unfold sorted_paths.
  rewrite !merge_sort_Permutation. destruct fs as [top|]; [|done].
  intros (rel & Hparts & Hpicked)%walk_picked.
  destruct p as [l]. cbn in Hparts. subst l.
  apply picked_walk. by eapply picked_weaken.
Qed.

Lemma scan_files_filters_remove_witness :
  default ∅ None ⊆ default ∅ (Some ({["src"]} : gset string))
  ∧ [mkPath ["repo"; "app.py"]]
      ⊆ [mkPath ["repo"; "app.py"]; mkPath ["repo"; "src"; "core.py"]].
Proof.
  split; [set_solver|].
  apply (scan_files_filters_remove (Some linked_tree) (mkPath ["repo"])
           (Some ["*.py"]) (Some ["core*"]) None (Some {["src"]})).
  - set_solver.
  - reflexivity.
  - reflexivity.
Defined.

(** ** More on the report generator *)




(** X12: a run touches nothing but its two artifacts: every other file on
    disk is as before, what can be opened for writing is as before, and
    the lines printed before the run are still there, in front. *)
Theorem generate_frame (fs : option node)
    (root_path output_dir : Path) (include_patterns : option (list string))
    (exclude_dirs : option (gset string)) (dry_run : bool) (w : world)
    (k : string) :
  k ≠ PurePath.str (output_dir / "file-summaries.md")%path →
  k ≠ PurePath.str (output_dir / "file-summaries.json")%path →
  let w' := (generate_file_summaries fs root_path output_dir
               include_patterns exclude_dirs dry_run w).2 in
  disk w' !! k = disk w !! k
  ∧ unwritable w' = unwritable w
  ∧ stdout w `prefix_of` stdout w'.
Proof.
  intros Hmd Hjson.
  destruct (generate_file_summaries_run fs root_path output_dir
              include_patterns exclude_dirs dry_run w)
    as (files & summaries & _ & _ & _ & ->).
  unfold report_outcome.
  destruct files as [|p files]; cbn; [by split_and!; [..|eexists]|].
  destruct dry_run; cbn; [by split_and!; [..|eexists]|].
  destruct (unwritable w !! _) as [msg|]; cbn; [done|].
  destruct (write_fails w !! _) as [[partial e]|]; cbn.
  { rewrite lookup_insert_ne by done. split_and!; [done..|]. exists []. by rewrite app_nil_r. }
  destruct (unwritable w !! _) as [msg|]; cbn.
  { rewrite lookup_insert_ne by done. by split_and!; [..|eexists]. }
  destruct (write_fails w !! _) as [[partial e]|]; cbn.
  - rewrite !lookup_insert_ne by done. by split_and!; [..|eexists].
  - rewrite !lookup_insert_ne by done. by split_and!; [..|eexists].
Qed.

Lemma generate_frame_witness :
  let w := mkWorld {[ "out/README.md" := Text "kept" ]} ∅ ["earlier line"] ∅ in
  let w' := (generate_file_summaries (Some linked_tree) (mkPath ["repo"])
               (mkPath ["out"]) None None false w).2 in
  disk w' !! "out/README.md" = disk w !! "out/README.md"
  ∧ unwritable w' = unwritable w
  ∧ stdout w `prefix_of` stdout w'.
Proof.
  apply (generate_frame (Some linked_tree) (mkPath ["repo"]) (mkPath ["out"])
           None None false
           (mkWorld {[ "out/README.md" := Text "kept" ]} ∅ ["earlier line"] ∅)
           "out/README.md"); discriminate.
Defined.









(** X15: the artifacts are settled by the list the scan returns. When a
    run succeeded and a later run, with the same arguments, finds a tree
    whose scan returns the same list (the output directory lies outside
    the root, or the filters keep the artifacts out) and succeeds too, the
    later run leaves the disk exactly as the first one left it: the two
    artifacts are written over with the same contents. *)
Theorem generate_rerun (fs fs' : option node)
    (root_path output_dir : Path) (include_patterns : option (list string))
    (exclude_dirs : option (gset string)) (dry_run : bool) (w w1 w2 : world) :
  generate_file_summaries fs root_path output_dir include_patterns
    exclude_dirs dry_run w = (Ok (), w1) →
  scan_files fs' root_path include_patterns None exclude_dirs
    = scan_files fs root_path include_patterns None exclude_dirs →
  generate_file_summaries fs' root_path output_dir include_patterns
    exclude_dirs dry_run w1 = (Ok (), w2) →
  disk w2 = disk w1.
Proof.
  destruct (generate_file_summaries_run fs root_path output_dir
              include_patterns exclude_dirs dry_run w)
    as (files & summaries & Hscan & Hsum & _ & ->).
  destruct (generate_file_summaries_run fs' root_path output_dir
              include_patterns exclude_dirs dry_run w1)
    as (files' & summaries' & Hscan' & Hsum' & _ & ->).
  intros Hfirst Hsame. rewrite Hsame in Hscan'.
  assert (files' = files) as -> by congruence.
  assert (summaries' = summaries) as -> by congruence.
  revert Hfirst. unfold report_outcome.
  set (md := PurePath.str (output_dir / "file-summaries.md")%path).
  set (json := PurePath.str (output_dir / "file-summaries.json")%path).
  destruct files as [|p files]; [by intros [= <-] [= <-]|].
  destruct dry_run; [by intros [= <-] [= <-]|].
  destruct (unwritable w !! md) as [msg|] eqn:Hmd; [done|].
  destruct (write_fails w !! md) as [[partial e]|] eqn:Hwmd; [done|].
  destruct (unwritable w !! json) as [msg|] eqn:Hjson; [done|].
  destruct (write_fails w !! json) as [[partial e]|] eqn:Hwjson; [done|].
  intros [= <-]. cbn [unwritable write_fails disk].
  rewrite Hmd, Hwmd, Hjson, Hwjson. intros [= <-]. cbn [disk].
  apply map_eq. intros k. rewrite !lookup_insert. by repeat case_decide.
Qed.

(** The second run scans the tree in another listing order. *)
Lemma generate_rerun_witness :
  ∃ w1 w2,
    generate_file_summaries (Some listing_one) (mkPath ["repo"])
      (mkPath ["out"]) None None false (mkWorld ∅ ∅ [] ∅) = (Ok (), w1)
    ∧ generate_file_summaries (Some listing_two) (mkPath ["repo"])
        (mkPath ["out"]) None None false w1 = (Ok (), w2)
    ∧ disk w2 = disk w1.
Proof.
  eexists _, _.
  assert (generate_file_summaries (Some listing_one) (mkPath ["repo"])
            (mkPath ["out"]) None None false (mkWorld ∅ ∅ [] ∅)
          = (Ok (),
             (generate_file_summaries (Some listing_one) (mkPath ["repo"])
                (mkPath ["out"]) None None false (mkWorld ∅ ∅ [] ∅)).2))
    as Hfirst by (vm_compute; reflexivity).
  assert (generate_file_summaries (Some listing_two) (mkPath ["repo"])
            (mkPath ["out"]) None None false
            (generate_file_summaries (Some listing_one) (mkPath ["repo"])
               (mkPath ["out"]) None None false (mkWorld ∅ ∅ [] ∅)).2
          = (Ok (),
             (generate_file_summaries (Some listing_two) (mkPath ["repo"])
                (mkPath ["out"]) None None false
                (generate_file_summaries (Some listing_one) (mkPath ["repo"])
                   (mkPath ["out"]) None None false (mkWorld ∅ ∅ [] ∅)).2).2))
    as Hsecond by (vm_compute; reflexivity).
  split_and!; [exact Hfirst | exact Hsecond |].
  apply (generate_rerun (Some listing_one) (Some listing_two) (mkPath ["repo"])
           (mkPath ["out"]) None None false (mkWorld ∅ ∅ [] ∅) _ _ Hfirst);
    [reflexivity | exact Hsecond].
Defined.

(** With the output directory inside the root, the later run finds the
    two artifacts in the tree and reports them as well. *)
Example rerun_inside_root :
  let later :=
    Dir [("main.py", File); ("file-summaries.md", File);
         ("file-summaries.json", File)] in
  ∃ summaries w',
    generate_file_summaries (Some later) (mkPath ["repo"]) (mkPath ["repo"])
      None None false (mkWorld ∅ ∅ [] ∅) = (Ok (), w')
    ∧ disk w' !! "repo/file-summaries.json" = Some (Json 3 summaries).
Proof. cbn zeta. eexists _, _. split; vm_compute; reflexivity. Qed.

Lemma strip_prefix_app (l rel : list string) :
  PurePath.strip_prefix l (l ++ rel) = Some rel.
Proof.
  induction l as [|x l IH]; [by destruct rel|].
  cbn. by rewrite bool_decide_eq_true_2.
Qed.

(** The path written for a file below the root: its components after
    the root's. *)
Lemma rel_path_under_root (root_path file_path : Path) (rel : list string) :
  parts file_path = parts root_path ++ rel →
  try_except_ValueError (PurePath.relative_to file_path root_path)
    (mret file_path)
  = Ok (mkPath rel).
Proof.
  destruct file_path as [l]. cbn [parts]. intros ->.
  unfold PurePath.relative_to. cbn [parts].
  destruct (parts root_path) as [|r0 rs] eqn:Hroot.
  - cbn [app]. by case_match.
  - by rewrite strip_prefix_app.
Qed.

Lemma for_each_Forall2 {A B} (f : A → result B) (P : A → Prop)
    (l : list A) (ys : list B) :
  Forall P l →
  for_each f l = Ok ys →
  Forall2 (λ x y, P x ∧ f x = Ok y) l ys.
Proof.
  intros Hall. revert ys. induction Hall as [|x l Hx _ IH]; intros ys; cbn.
  - intros [= <-]. constructor.
  - destruct (f x) as [y|e] eqn:Hfx; cbn; [|done].
    destruct (for_each f l) as [ys'|e] eqn:Hrest; cbn; [|done].
    intros [= <-]. constructor; [done | by apply IH].
Qed.

(** X16: the entries of a report follow the scanned files one for one, in
    the order of the scan. The entry of a file carries the path of the
    file relative to the root, its language label and its heuristic
    summary; the fall-back to the full path is never taken for a scanned
    file. *)
Theorem report_entries_follow_files (fs : option node) (root_path : Path)
    (include_patterns exclude_patterns : option (list string))
    (exclude_dirs : option (gset string))
    (files : list Path) (summaries : list summary_entry) :
  scan_files fs root_path include_patterns exclude_patterns exclude_dirs
    = Ok files →
  for_each (summarise root_path) files = Ok summaries →
  Forall2
    (λ file_path entry,
       ∃ d rel,
         parts file_path = parts root_path ++ d :: rel
         ∧ entry_path entry = PurePath.str (mkPath (d :: rel))
         ∧ entry_language entry = _get_language file_path
         ∧ _generate_heuristic_summary file_path root_path
           = Ok (entry_summary entry))
    files summaries.
Proof.
  intros [= <-] Hsum.
  apply (for_each_Forall2 _
           (λ p, ∃ d rel, parts p = parts root_path ++ d :: rel)) in Hsum.
  - eapply Forall2_impl; [exact Hsum|].
    intros p entry [(d & rel & Hparts) Hentry]. exists d, rel.
    unfold summarise in Hentry.
    rewrite (rel_path_under_root _ _ _ Hparts) in Hentry.
    cbn [mbind result_bind] in Hentry.
    destruct (_generate_heuristic_summary p root_path) as [summary|e]; [|done].
    by injection Hentry as <-.
  - apply Forall_forall. intros p Hp.
    unfold sorted_paths in Hp. rewrite merge_sort_Permutation in Hp.
    destruct fs as [top|]; [|by apply elem_of_nil in Hp].
    by eapply walk_parts.
Qed.

Lemma report_entries_follow_files_witness :
  Forall2
    (λ file_path entry,
       ∃ d rel,
         parts file_path = parts (mkPath ["/"; "srv"; "repo"]) ++ d :: rel
         ∧ entry_path entry = PurePath.str (mkPath (d :: rel))
         ∧ entry_language entry = _get_language file_path
         ∧ _generate_heuristic_summary file_path (mkPath ["/"; "srv"; "repo"])
           = Ok (entry_summary entry))
    [mkPath ["/"; "srv"; "repo"; "app.py"];
     mkPath ["/"; "srv"; "repo"; "src"; "core.py"]]
    [mkEntry "app.py" "Python" "Python main entry point";
     mkEntry "src/core.py" "Python" "Python core implementation"].
Proof.
  apply (report_entries_follow_files (Some linked_tree)
           (mkPath ["/"; "srv"; "repo"]) None None None); reflexivity.
Defined.

(** ** The Markdown text *)

Lemma join_elem (sep x : string) (l : list string) :
  x ∈ l → ∃ pre post, PyStr.join sep l = pre +:+ x +:+ post.
Proof.
  induction l as [|y l IH]; [by intros ?%elem_of_nil|].
  intros [-> | Hin]%elem_of_cons.
  - destruct l as [|z l].
    + exists "", "". cbn. by rewrite app_nil_r_s.
    + by exists "", (sep +:+ PyStr.join sep (z :: l)).
  - destruct (IH Hin) as (pre & post & Hjoin).
    destruct l as [|z l]; [by apply elem_of_nil in Hin|].
    exists (y +:+ sep +:+ pre), post.
    cbn [PyStr.join] in *. rewrite Hjoin. by rewrite !app_assoc_s.
Qed.

Lemma markdown_line (summaries : list summary_entry) (line : string) :
  line ∈ ["# File Summaries" +:+ newline;
          "Heuristic summaries of source files based on filenames, extensions, and paths."
            +:+ newline;
          "Total files: " +:+ pretty (length summaries) +:+ newline]
         ++ (summaries ≫= λ entry,
               ["## " +:+ entry_path entry;
                "**Language:** " +:+ entry_language entry +:+ "  ";
                "**Summary:** " +:+ entry_summary entry +:+ newline]) →
  PyStr.contains (markdown_of summaries) line = true.
Proof.
  intros Hin. apply contains_spec. unfold markdown_of.
  by apply join_elem.
Qed.

(** X17: the Markdown text opens with the title, states the number of
    entries, and has for every entry a section with its path as the
    header, its language line and its summary line. *)
Theorem markdown_has_sections (summaries : list summary_entry) :
  PyStr.startswith (markdown_of summaries) ("# File Summaries" +:+ newline) = true
  ∧ PyStr.contains (markdown_of summaries)
      ("Total files: " +:+ pretty (length summaries) +:+ newline) = true
  ∧ ∀ entry, entry ∈ summaries →
      PyStr.contains (markdown_of summaries) ("## " +:+ entry_path entry) = true
      ∧ PyStr.contains (markdown_of summaries)
          ("**Language:** " +:+ entry_language entry +:+ "  ") = true
      ∧ PyStr.contains (markdown_of summaries)
          ("**Summary:** " +:+ entry_summary entry +:+ newline) = true.
Proof.
  split_and!.
  - apply startswith_spec. unfold markdown_of. cbn [app PyStr.join].
    eexists. by rewrite app_assoc_s.
  - apply markdown_line. apply elem_of_app. left. set_solver.
  - intros entry Hentry.
    split_and!; apply markdown_line, elem_of_app; right;
      apply list_elem_of_bind; exists entry; (split; [|done]); set_solver.
Qed.

(** ** What the summary depends on *)

(** X18: apart from the module initialisers [__init__] and [mod], the
    summary is settled by the file name and by the first directory below
    the root, case aside: two files of the same name get the same summary
    when they lie directly under their roots, or under first directories
    of the same lower-cased name, however deep. *)
Theorem heuristic_summary_depends (p q root_p root_q : Path)
    (dirs_p dirs_q : list string) :
  PurePath.name p = PurePath.name q →
  relative_dir_parts p root_p = Ok dirs_p →
  relative_dir_parts q root_q = Ok dirs_q →
  PyStr.lower <$> head dirs_p = PyStr.lower <$> head dirs_q →
  PyStr.lower (PurePath.stem p) ∉ ["__init__"; "mod"] →
  _generate_heuristic_summary p root_p = _generate_heuristic_summary q root_q.
Proof.
  intros Hname Hp Hq Hhead Hinit.
  unfold _generate_heuristic_summary. rewrite Hp, Hq. cbn [mbind result_bind].
  assert (PurePath.stem q = PurePath.stem p) as ->
    by (unfold PurePath.stem; by rewrite Hname).
  assert (PurePath.suffix q = PurePath.suffix p) as Hsuffix
    by (unfold PurePath.suffix; by rewrite Hname).
  assert (_get_language q = _get_language p) as ->
    by (unfold _get_language; by rewrite Hsuffix).
  rewrite Hsuffix. clear Hp Hq Hname Hsuffix.
  revert Hinit.
  generalize (PyStr.lower (PurePath.stem p)) as name_lower.
  generalize (PyStr.lower (PurePath.suffix p)) as extension.
  generalize (PurePath.stem p) as name.
  generalize (_get_language p) as language.
  intros language name extension name_lower Hinit.
  destruct (str_in name_lower ["main"; "index"; "app"; "__main__"]) eqn:Hmain.
  { by repeat case_match. }
  destruct (str_in name_lower ["__init__"; "index"; "mod"]) eqn:Hmod.
  { apply bool_decide_eq_true in Hmod. apply bool_decide_eq_false in Hmain.
    repeat rewrite elem_of_cons in Hmod.
    repeat rewrite elem_of_cons in Hmain.
    repeat rewrite elem_of_cons in Hinit. tauto. }
  destruct dirs_p as [|d dirs_p], dirs_q as [|d' dirs_q]; simplify_eq/=.
  - done.
  - match goal with H : PyStr.lower d = PyStr.lower d' |- _ => rewrite H end.
    done.
Qed.

Lemma heuristic_summary_depends_witness :
  _generate_heuristic_summary
    (mkPath ["repo"; "Docs"; "guide"; "intro.md"]) (mkPath ["repo"])
  = _generate_heuristic_summary
      (mkPath ["/"; "tmp"; "docs"; "intro.md"]) (mkPath ["/"; "tmp"]).
Proof.
  apply (heuristic_summary_depends
           (mkPath ["repo"; "Docs"; "guide"; "intro.md"])
           (mkPath ["/"; "tmp"; "docs"; "intro.md"])
           (mkPath ["repo"]) (mkPath ["/"; "tmp"])
           ["Docs"; "guide"] ["docs"]); try reflexivity.
  compute_done.
Defined.
